(** * PROTATICA: the hardened Gemini service, embedded and verified

    A shallow embedding of [src/services/geminiService.ts]: the identifier
    extractor, the oEmbed verifier, the response parser, the title matcher,
    the link pipeline with its five guards, the frame sampler and the file
    pipeline.

    Conventions of the embedding.
    - A JavaScript string is the list of its UTF-16 code units ([jsstring]).
    - A JavaScript value obtained from JSON is a [value]; numbers are IEEE
      binary64 values ([spec_float] of the Standard Library).
    - Built-ins of the host whose definition is not part of the repository
      ([new URL], [JSON.parse], [String.prototype.toLowerCase]) are the fields
      of a [Platform]; every general theorem holds for every platform.  A
      small reference platform, defined at the end of the definitions, runs
      the concrete examples.
    - The outside world (environment variables, [fetch], the generation
      endpoint, the video element) is an oracle record [World]; each
      interaction is logged in a trace of [Event]s. *)

From Stdlib Require Import List Bool Arith NArith ZArith Lia.
From Stdlib Require Import Ascii.
From Stdlib Require String.
Import String.StringSyntax.
From Stdlib Require Import SpecFloat.
Import ListNotations.

Set Implicit Arguments.
Set Warnings "-register-all".
Local Open Scope Z_scope.

(* ================================================================== *)
(** ** JavaScript strings *)

Module JsString.

(** A UTF-16 code unit; only values below 65536 occur in real strings. *)
Definition codeunit := N.
Definition jsstring := list codeunit.

(** An ASCII literal of the source as a [jsstring]. *)
Definition js (s : String.string) : jsstring :=
  map N_of_ascii (String.list_ascii_of_string s).
Arguments js s%_string_scope.

Fixpoint eqb (a b : jsstring) : bool :=
  match a, b with
  | [], [] => true
  | x :: a', y :: b' => N.eqb x y && eqb a' b'
  | _, _ => false
  end.

Definition len (s : jsstring) : Z := Z.of_nat (length s).

(** [s.startsWith(p)] on lists of code units. *)
Fixpoint startsWith (s p : jsstring) {struct p} : bool :=
  match p, s with
  | [], _ => true
  | y :: p', x :: s' => N.eqb x y && startsWith s' p'
  | _ :: _, [] => false
  end.

(** [s.endsWith(suffix)]. *)
Definition endsWith (s suffix : jsstring) : bool :=
  (length suffix <=? length s)%nat
  && eqb (skipn (length s - length suffix) s) suffix.

(** [s.includes(t)]. *)
Fixpoint includes (s t : jsstring) : bool :=
  startsWith s t ||
  match s with
  | [] => false
  | _ :: s' => includes s' t
  end.

(** [s.indexOf(c)] for a one-unit pattern: the first position, or -1. *)
Fixpoint indexOf (s : jsstring) (c : codeunit) : Z :=
  match s with
  | [] => -1
  | x :: s' =>
      if N.eqb x c then 0
      else let i := indexOf s' c in if i <? 0 then -1 else i + 1
  end.

(** [s.lastIndexOf(c)] for a one-unit pattern: the last position, or -1. *)
Fixpoint lastIndexOf (s : jsstring) (c : codeunit) : Z :=
  match s with
  | [] => -1
  | x :: s' =>
      let i := lastIndexOf s' c in
      if 0 <=? i then i + 1
      else if N.eqb x c then 0 else -1
  end.

(** [s.substring(a, b)]: both bounds are clamped to [0, length] and
    swapped when the first exceeds the second. *)
Definition clamp (s : jsstring) (i : Z) : nat :=
  Z.to_nat (Z.min (Z.max i 0) (len s)).

Definition substring (s : jsstring) (a b : Z) : jsstring :=
  let a' := clamp s a in
  let b' := clamp s b in
  let lo := Nat.min a' b' in
  let hi := Nat.max a' b' in
  firstn (hi - lo) (skipn lo s).

(** [s.split(sep)] for a one-unit separator. *)
Fixpoint split (sep : codeunit) (s : jsstring) : list jsstring :=
  match s with
  | [] => [[]]
  | c :: s' =>
      if N.eqb c sep then [] :: split sep s'
      else match split sep s' with
           | [] => [[c]]
           | w :: ws => (c :: w) :: ws
           end
  end.

(** WhiteSpace and LineTerminator code units: what [trim] strips and what
    the regular-expression class [\s] matches. *)
Definition is_space (c : codeunit) : bool :=
  ((9 <=? c) && (c <=? 13)
   || (c =? 32) || (c =? 160) || (c =? 5760)
   || (8192 <=? c) && (c <=? 8202)
   || (c =? 8232) || (c =? 8233) || (c =? 8239) || (c =? 8287)
   || (c =? 12288) || (c =? 65279))%N.

Fixpoint trimStart (s : jsstring) : jsstring :=
  match s with
  | c :: s' => if is_space c then trimStart s' else s
  | [] => []
  end.

Definition trimEnd (s : jsstring) : jsstring := rev (trimStart (rev s)).

Definition trim (s : jsstring) : jsstring := trimEnd (trimStart s).

(** A string is truthy when it is not empty. *)
Definition nonempty (s : jsstring) : bool :=
  match s with [] => false | _ => true end.

End JsString.
Import JsString.

(** Code units of the punctuation the service looks for. *)
Definition SLASH : codeunit := 47%N.
Definition COMMA : codeunit := 44%N.
Definition LBRACE : codeunit := 123%N.
Definition RBRACE : codeunit := 125%N.
Definition SPACE : codeunit := 32%N.

(* ================================================================== *)
(** ** Arrays *)

(** [arr[i]], [undefined] (here [None]) outside the bounds. *)
Definition at_index {A} (arr : list A) (i : Z) : option A :=
  if i <? 0 then None else nth_error arr (Z.to_nat i).

(** [arr.findIndex(p)]: the first position satisfying [p], or -1. *)
Fixpoint findIndex {A} (p : A -> bool) (arr : list A) : Z :=
  match arr with
  | [] => -1
  | x :: arr' =>
      if p x then 0
      else let i := findIndex p arr' in if i <? 0 then -1 else i + 1
  end.

(** [arr.indexOf(s)] on an array of strings (strict equality). *)
Definition array_indexOf (arr : list jsstring) (s : jsstring) : Z :=
  findIndex (fun x => eqb x s) arr.

(** [arr.filter(Boolean)] on an array of strings. *)
Definition filter_Boolean (arr : list jsstring) : list jsstring :=
  filter nonempty arr.

(** [arr.filter((x, idx) => p x idx)]: the callback also sees the index. *)
Fixpoint filter_idx {A} (p : A -> Z -> bool) (idx : Z) (arr : list A) : list A :=
  match arr with
  | [] => []
  | x :: arr' =>
      if p x idx then x :: filter_idx p (idx + 1) arr'
      else filter_idx p (idx + 1) arr'
  end.

(* ================================================================== *)
(** ** JavaScript values *)

(** The values [JSON.parse] can produce, and [undefined].  An array keeps,
    next to its elements, the named properties assigned to it later. *)
Inductive value : Type :=
| JUndefined
| JNull
| JBool (b : bool)
| JNumber (x : spec_float)
| JString (s : jsstring)
| JArray (elems : list value) (props : list (jsstring * value))
| JObject (props : list (jsstring * value)).

(** [typeof v === "string"]. *)
Definition is_string (v : value) : bool :=
  match v with JString _ => true | _ => false end.

(** ToBoolean. *)
Definition truthy (v : value) : bool :=
  match v with
  | JUndefined | JNull => false
  | JBool b => b
  | JNumber (S754_zero _) | JNumber S754_nan => false
  | JNumber _ => true
  | JString s => nonempty s
  | JArray _ _ | JObject _ => true
  end.

Fixpoint lookup (k : jsstring) (props : list (jsstring * value)) : option value :=
  match props with
  | [] => None
  | (k', x) :: props' => if eqb k' k then Some x else lookup k props'
  end.

Fixpoint assign (k : jsstring) (x : value) (props : list (jsstring * value))
  : list (jsstring * value) :=
  match props with
  | [] => [(k, x)]
  | (k', y) :: props' =>
      if eqb k' k then (k', x) :: props' else (k', y) :: assign k x props'
  end.

(** [v.k] for one of the names the service reads ([error], [videoId],
    [videoTitle], [title], [author_name], [videoUrl], [sources]).  None of
    them is defined on a built-in prototype, so the access is a lookup among
    the own named properties; numbers, booleans and strings have none of
    them.  The receiver is never [null] or [undefined] where the service
    uses a plain dot (see [get_opt] for [?.]). *)
Definition get (v : value) (k : jsstring) : value :=
  match v with
  | JObject props | JArray _ props =>
      match lookup k props with Some x => x | None => JUndefined end
  | _ => JUndefined
  end.

(** [v?.k]. *)
Definition get_opt (v : value) (k : jsstring) : value := get v k.

(** [v.k = x] in strict-mode code (an ES module): objects and arrays take the
    property, everything else raises a TypeError ([None]). *)
Definition set (v : value) (k : jsstring) (x : value) : option value :=
  match v with
  | JObject props => Some (JObject (assign k x props))
  | JArray elems props => Some (JArray elems (assign k x props))
  | _ => None
  end.

Definition has_own (k : jsstring) (props : list (jsstring * value)) : bool :=
  match lookup k props with Some _ => true | None => false end.

(** ToString(v) returns normally.  An object is converted by the inherited
    [toString] unless it has an own property of that name, which, coming
    from JSON, is not callable: the inherited [valueOf] then returns the
    object itself and the conversion raises a TypeError.  An array joins the
    strings of its elements, [null] and [undefined] counting as empty; with
    an own [join] it falls back on the conversion of objects. *)
Fixpoint stringifies (v : value) : bool :=
  match v with
  | JObject props => negb (has_own (js "toString") props)
  | JArray elems props =>
      if has_own (js "toString") props then false
      else if has_own (js "join") props then true
      else forallb
             (fun e =>
                match e with
                | JUndefined | JNull => true
                | _ => stringifies e
                end)
             elems
  | _ => true
  end.

(** [a || b] on optional strings ([undefined] is [None]). *)
Definition or_else (a b : option jsstring) : option jsstring :=
  match a with
  | Some (_ :: _) => a
  | _ => b
  end.

(** Truthiness of an optional string. *)
Definition present (a : option jsstring) : bool :=
  match a with Some (_ :: _) => true | _ => false end.

(* ================================================================== *)
(** ** The host platform *)

(** What the service reads of a parsed [URL]. *)
Record URL : Type := mkURL {
  hostname : jsstring;
  pathname : jsstring;
  searchParams : list (jsstring * jsstring)
}.

(** [u.searchParams.get(name)]: the value of the first pair with that name. *)
Fixpoint searchParams_get (params : list (jsstring * jsstring)) (name : jsstring)
  : option jsstring :=
  match params with
  | [] => None
  | (k, x) :: params' => if eqb k name then Some x else searchParams_get params' name
  end.

Record Platform : Type := mkPlatform {
  (** [new URL(s)]; [None] when the constructor throws. *)
  URL_parse : jsstring -> option URL;
  (** [JSON.parse(s)]; [None] when it throws a SyntaxError. *)
  JSON_parse : jsstring -> option value;
  (** [s.toLowerCase()], the Unicode case mapping of the host. *)
  toLowerCase : jsstring -> jsstring
}.

(* ================================================================== *)
(** ** Pure functions of the service *)

(** [pathname.split("/").filter(Boolean)]: the non-empty path segments. *)
Definition path_segments (pathname : jsstring) : list jsstring :=
  filter_Boolean (split SLASH pathname).

Section Pure.

Variable P : Platform.

(** [extractYouTubeId]: the whole body sits in a [try] whose [catch]
    returns [null]; the only call that can throw is [new URL]. *)
Definition extractYouTubeId (url : jsstring) : option jsstring :=
  match URL_parse P url with
  | None => None
  | Some u =>
      let v := searchParams_get (searchParams u) (js "v") in
      if present v then v
      else if endsWith (hostname u) (js "youtu.be") then
        let id := at_index (path_segments (pathname u)) 0 in
        or_else id None
      else
        let parts := path_segments (pathname u) in
        let shortsIdx := array_indexOf parts (js "shorts") in
        if (0 <=? shortsIdx) && present (at_index parts (shortsIdx + 1))
        then at_index parts (shortsIdx + 1)
        else
          let embedIdx := array_indexOf parts (js "embed") in
          if (0 <=? embedIdx) && present (at_index parts (embedIdx + 1))
          then at_index parts (embedIdx + 1)
          else None
  end.

(** [parseJsonResponse]: [text] is [response.text], which the SDK leaves
    [undefined] ([None]) when the answer has no text part; [text.indexOf]
    then throws inside the [try].  The result [null] is [JNull]. *)
Definition parseJsonResponse (text : option jsstring) : value :=
  match text with
  | None => JNull
  | Some text =>
      let start := indexOf text LBRACE in
      let end_ := lastIndexOf text RBRACE in
      if (start =? -1) || (end_ =? -1) then JNull
      else
        let jsonStr := substring text start (end_ + 1) in
        match JSON_parse P jsonStr with
        | Some v => v
        | None => JNull
        end
  end.

(** The class [\u200B-\u200D\uFEFF] of the first [replace]. *)
Definition is_invisible (c : codeunit) : bool :=
  ((8203 <=? c) && (c <=? 8205) || (c =? 65279))%N.

(** [s.replace(/\s+/g, " ")]; [in_run] tells that the previous unit already
    belonged to the run being replaced. *)
Fixpoint collapse_spaces (in_run : bool) (s : jsstring) : jsstring :=
  match s with
  | [] => []
  | c :: s' =>
      if is_space c
      then if in_run then collapse_spaces true s'
           else SPACE :: collapse_spaces true s'
      else c :: collapse_spaces false s'
  end.

Definition normalizeTitle (s : jsstring) : jsstring :=
  collapse_spaces false
    (filter (fun c => negb (is_invisible c))
       (toLowerCase P (trim s))).

Definition titlesLooselyMatch (a b : jsstring) : bool :=
  let t1 := normalizeTitle a in
  let t2 := normalizeTitle b in
  if negb (nonempty t1) || negb (nonempty t2) then false
  else eqb t1 t2 || includes t1 t2 || includes t2 t1.

End Pure.

(** *** [encodeURIComponent] *)

(** The units left as they are: letters, digits and [- _ . ! ~ * ' ( )]. *)
Definition uri_unreserved (c : codeunit) : bool :=
  ((65 <=? c) && (c <=? 90) || (97 <=? c) && (c <=? 122)
   || (48 <=? c) && (c <=? 57)
   || (c =? 45) || (c =? 95) || (c =? 46) || (c =? 33) || (c =? 126)
   || (c =? 42) || (c =? 39) || (c =? 40) || (c =? 41))%N.

Definition is_lead_surrogate (c : codeunit) : bool :=
  ((55296 <=? c) && (c <=? 56319))%N.
Definition is_trail_surrogate (c : codeunit) : bool :=
  ((56320 <=? c) && (c <=? 57343))%N.

(** The UTF-8 octets of a code point. *)
Definition utf8 (cp : N) : list N :=
  (if cp <? 128 then [cp]
   else if cp <? 2048 then [192 + cp / 64; 128 + cp mod 64]
   else if cp <? 65536 then
     [224 + cp / 4096; 128 + (cp / 64) mod 64; 128 + cp mod 64]
   else
     [240 + cp / 262144; 128 + (cp / 4096) mod 64;
      128 + (cp / 64) mod 64; 128 + cp mod 64])%N.

Definition hex_digit (d : N) : codeunit :=
  (if d <? 10 then 48 + d else 55 + d)%N.

(** [%XX] for each octet. *)
Definition percent_encode (octets : list N) : jsstring :=
  flat_map (fun o => [37; hex_digit (o / 16); hex_digit (o mod 16)]%N) octets.

(** [encodeURIComponent(s)]; [None] is the URIError raised on a surrogate
    without its partner. *)
Fixpoint encodeURIComponent (s : jsstring) : option jsstring :=
  match s with
  | [] => Some []
  | c :: s' =>
      if uri_unreserved c then option_map (cons c) (encodeURIComponent s')
      else if is_trail_surrogate c then None
      else if is_lead_surrogate c then
        match s' with
        | d :: s'' =>
            if is_trail_surrogate d then
              option_map
                (app (percent_encode
                        (utf8 ((c - 55296) * 1024 + (d - 56320) + 65536)%N)))
                (encodeURIComponent s'')
            else None
        | [] => None
        end
      else option_map (app (percent_encode (utf8 c))) (encodeURIComponent s')
  end.

(* ================================================================== *)
(** ** The outside world *)

(** The three places [getApiKey] looks at. *)
Record Env : Type := mkEnv {
  VITE_GEMINI_API_KEY : option jsstring;
  API_KEY : option jsstring;
  GEMINI_API_KEY : option jsstring
}.

(** How [fetch] followed by [res.json()] can end: the request is rejected,
    or a response arrives with its [ok] flag and its body, [None] when the
    body is not JSON. *)
Inductive FetchOutcome : Type :=
| NetworkError
| HttpResponse (ok : bool) (body : option value).

Record WebChunk : Type := mkWebChunk {
  web_uri : option jsstring;
  web_title : option jsstring
}.

Record GroundingChunk : Type := mkChunk { web : option WebChunk }.

(** What the service reads of a generation response: [response.text] and
    [response.candidates?.[0]?.groundingMetadata?.groundingChunks]. *)
Record GenResponse : Type := mkGenResponse {
  text : option jsstring;
  groundingChunks : option (list GroundingChunk)
}.

Inductive GenOutcome : Type :=
| GenRejected (reason : jsstring)
| GenResolved (response : GenResponse).

(** The prompt, by the values interpolated in its fixed text. *)
Inductive Contents : Type :=
| AnalysisPrompt (youtubeUrl expectedVideoId : jsstring)
                 (titulo canal : value) (isDetailed : bool)
| FramesPrompt (imageParts : list (option jsstring)).

Record GenRequest : Type := mkGenRequest {
  model : jsstring;
  contents : Contents;
  googleSearch : bool;
  thinkingBudget : Z
}.

Record File : Type := mkFile {
  name : jsstring;
  blob : N
}.

(** What the video element does with a file: the first event after
    [video.src] is set, then the event answering each seek, in order.  When
    the list is used up the element fires nothing more. *)
Inductive LoadReply : Type :=
| LoadedMetadata (duration : spec_float)
| LoadError
| LoadSilent.

Inductive SeekReply : Type :=
| Seeked (dataURL : jsstring)
| SeekError.

Record World : Type := mkWorld {
  env : Env;
  fetch : jsstring -> FetchOutcome;
  generateContent : jsstring -> GenRequest -> GenOutcome;
  video_load : File -> LoadReply;
  video_seek : File -> list SeekReply
}.

(** The interactions with the world, as they are logged. *)
Inductive Event : Type :=
| EvFetch (endpoint : jsstring)
| EvGenerate (request : GenRequest)
| EvCreateObjectURL (file : File)
| EvSeek (currentTime : spec_float)
| EvCapture
| EvRevokeObjectURL (file : File).

(** The errors of the service, named as in the specification; the message
    of each [throw] is fixed by its constructor. *)
Inductive ErrorOutcome : Type :=
| InvalidLink
| UnverifiableVideo
| MissingCredential
| TransportError (reason : jsstring)
| UnparsableResponse
| ModelDeclinedIdentification (message : value)
| MissingVideoId
| VideoIdMismatch (returnedId : value) (expectedVideoId : jsstring)
| TitleMismatch
| FrameExtractionFailed
| VisualAnalysisFailed
| TypeError.

(** How an awaited promise ends; [Pending] is a promise that never
    settles. *)
Inductive Outcome (A : Type) : Type :=
| Resolved (a : A)
| Rejected (e : ErrorOutcome)
| Pending.
Arguments Rejected {A} e.
Arguments Pending {A}.

(** A computation: the events it performed and how it ended. *)
Module Async.

Definition M (A : Type) : Type := (list Event * Outcome A)%type.

Definition ret {A} (a : A) : M A := ([], Resolved a).
Definition throw {A} (e : ErrorOutcome) : M A := ([], Rejected e).
Definition never {A} : M A := ([], Pending).
Definition emit (ev : Event) : M unit := ([ev], Resolved tt).

Definition bind {A B} (m : M A) (k : A -> M B) : M B :=
  match m with
  | (t, Resolved a) => let (t', o) := k a in (t ++ t', o)
  | (t, Rejected e) => (t, Rejected e)
  | (t, Pending) => (t, Pending)
  end.

Definition trace {A} (m : M A) : list Event := fst m.
Definition outcome {A} (m : M A) : Outcome A := snd m.

End Async.
Import Async.

Notation "x <- m ;; k" := (bind m (fun x => k))
  (at level 61, m at next level, right associativity).
Notation "m ;;; k" := (bind m (fun _ => k))
  (at level 61, right associativity).

(** A template literal with the interpolated values [vs]: each is converted
    to a string, which can raise a TypeError. *)
Definition interpolate (vs : list value) : M unit :=
  if forallb stringifies vs then ret tt else throw TypeError.

(** [throw new Error(message)] for a [message] built from the value [v],
    the error being [e] when the message can be built. *)
Definition throw_Error {A} (v : value) (e : ErrorOutcome) : M A :=
  interpolate [v] ;;; throw e.

(* ================================================================== *)
(** ** The service *)

(** The names of the properties the service touches. *)
Definition k_title := js "title".
Definition k_author_name := js "author_name".
Definition k_error := js "error".
Definition k_videoUrl := js "videoUrl".
Definition k_videoId := js "videoId".
Definition k_videoTitle := js "videoTitle".
Definition k_sources := js "sources".
Definition k_uri := js "uri".

Record GroundingSource : Type := mkSource {
  title : option jsstring;
  uri : jsstring
}.

Definition of_optional (s : option jsstring) : value :=
  match s with Some s => JString s | None => JUndefined end.

(** A source as the object literal [{ title, uri }]. *)
Definition source_value (s : GroundingSource) : value :=
  JObject [(k_title, of_optional (title s)); (k_uri, JString (uri s))].

(** [v === s] for a string [s]. *)
Definition strict_eq_string (v : value) (s : jsstring) : bool :=
  match v with JString s' => eqb s' s | _ => false end.

(** The title [YouTube (video analisado)] of the source, whose eleventh
    unit, 237, is the letter i with an acute accent. *)
Definition analysed_video_title : jsstring :=
  js "YouTube (v" ++ [237%N] ++ js "deo analisado)".

(** The [forEach] over the grounding chunks: a chunk contributes when it
    has a [web] part with a truthy [uri]. *)
Definition sources_of_chunks (chunks : option (list GroundingChunk))
  : list GroundingSource :=
  match chunks with
  | None => []
  | Some chunks =>
      flat_map
        (fun chunk =>
           match web chunk with
           | Some wc =>
               match web_uri wc with
               | Some (c :: u) => [mkSource (web_title wc) (c :: u)]
               | _ => []
               end
           | None => []
           end)
        chunks
  end.

(** [(src.uri || "").trim()]. *)
Definition source_key (src : GroundingSource) : jsstring :=
  trim (if nonempty (uri src) then uri src else []).

(** The callback of the filter of [uniqueSources] on the array [arr]: a
    source stays when its trimmed uri is not empty and [idx] is the first
    position of [arr] with that trimmed uri. *)
Definition keeps (arr : list GroundingSource) (src : GroundingSource) (idx : Z)
  : bool :=
  let uri := source_key src in
  if negb (nonempty uri) then false
  else idx =? findIndex (fun s => eqb (source_key s) uri) arr.

(** The original video first, then the grounding sources, filtered by
    [keeps]. *)
Definition uniqueSources (youtubeUrl : jsstring) (sources : list GroundingSource)
  : list GroundingSource :=
  let arr := mkSource (Some analysed_video_title) youtubeUrl :: sources in
  filter_idx (keeps arr) 0 arr.

(** [mode]: ["web"] (the default) or ["video"]. *)
Inductive Mode : Type := web_mode | video_mode.

(** [mode === "video"]. *)
Definition isDetailed (mode : Mode) : bool :=
  match mode with video_mode => true | web_mode => false end.

Definition gemini_model : jsstring := js "gemini-3-pro-preview".

(** Binary64 arithmetic of the frame sampler. *)
Definition number_of_nat (n : nat) : spec_float :=
  binary_normalize 53 1024 (Z.of_nat n) 0 false.
Definition number_div : spec_float -> spec_float -> spec_float := SFdiv 53 1024.
Definition number_mul : spec_float -> spec_float -> spec_float := SFmul 53 1024.

(** Neither NaN nor an infinity. *)
Definition is_finite (x : spec_float) : bool :=
  match x with
  | S754_zero _ | S754_finite _ _ _ => true
  | S754_infinity _ | S754_nan => false
  end.

(** The address [fetchYouTubeOEmbed] asks, given the encoded link. *)
Definition oembed_endpoint (encoded : jsstring) : jsstring :=
  js "https://www.youtube.com/oembed?format=json&url=" ++ encoded.

(** [oembed.author_name ?? "indisponivel"]. *)
Definition canal (oembed : value) : value :=
  match get oembed k_author_name with
  | JUndefined | JNull => JString (js "indisponivel")
  | a => a
  end.

(** The request of the link pipeline: the prompt carries the link, the
    expected identifier, the verified title and the channel; search
    grounding is on. *)
Definition analysisRequest (youtubeUrl expectedVideoId : jsstring)
           (oembed : value) (detailed : bool) : GenRequest :=
  mkGenRequest gemini_model
    (AnalysisPrompt youtubeUrl expectedVideoId (get oembed k_title)
                    (canal oembed) detailed)
    true 6000.

(** The request of the file pipeline. *)
Definition framesRequest (imageParts : list (option jsstring)) : GenRequest :=
  mkGenRequest gemini_model (FramesPrompt imageParts) false 2000.

(** The two request shapes. *)
Inductive Input : Type :=
| FileInput (file : File)
| LinkInput (url : jsstring) (mode : Mode).

Section Service.

Variable P : Platform.
Variable w : World.

(** [getApiKey]: [viteKey || procKey || procGeminiKey]. *)
Definition getApiKey : option jsstring :=
  or_else (or_else (VITE_GEMINI_API_KEY (env w)) (API_KEY (env w)))
          (GEMINI_API_KEY (env w)).

(** [getClient]: the client is its key. *)
Definition getClient : M jsstring :=
  match getApiKey with
  | Some (c :: k) => ret (c :: k)
  | _ => throw MissingCredential
  end.

(** [client.models.generateContent(request)]. *)
Definition models_generateContent (apiKey : jsstring) (request : GenRequest)
  : M GenResponse :=
  emit (EvGenerate request) ;;;
  match generateContent w apiKey request with
  | GenRejected reason => throw (TransportError reason)
  | GenResolved response => ret response
  end.

(** [fetchYouTubeOEmbed]: [null] ([JNull]) on any failure, otherwise the
    object [{ title: data?.title, author_name: data?.author_name }]. *)
Definition fetchYouTubeOEmbed (youtubeUrl : jsstring) : M value :=
  match encodeURIComponent youtubeUrl with
  | None => ret JNull
  | Some encoded =>
      let endpoint := oembed_endpoint encoded in
      emit (EvFetch endpoint) ;;;
      match fetch w endpoint with
      | NetworkError => ret JNull
      | HttpResponse ok body =>
          if negb ok then ret JNull
          else match body with
               | None => ret JNull
               | Some data =>
                   ret (JObject [(k_title, get_opt data k_title);
                                 (k_author_name, get_opt data k_author_name)])
               end
      end
  end.

(** [v.k = x], raising the TypeError of an assignment to a primitive. *)
Definition assign_prop (v : value) (k : jsstring) (x : value) : M value :=
  match set v k x with
  | Some v' => ret v'
  | None => throw TypeError
  end.

(** [titlesLooselyMatch(a, b)] on values: [normalizeTitle] calls [trim],
    which only strings have. *)
Definition titlesLooselyMatch_values (a b : value) : M bool :=
  match a, b with
  | JString a, JString b => ret (titlesLooselyMatch P a b)
  | _, _ => throw TypeError
  end.

Definition getAnalysisFromWeb (youtubeUrl : jsstring) (mode : Mode) : M value :=
  (* GUARDA 1 *)
  match extractYouTubeId P youtubeUrl with
  | Some (c :: id) =>
      let expectedVideoId := c :: id in
      (* GUARDA 2 *)
      oembed <- fetchYouTubeOEmbed youtubeUrl ;;
      if negb (truthy (get_opt oembed k_title)) then throw UnverifiableVideo
      else
        (* analysisPrompt *)
        interpolate [get oembed k_title; canal oembed] ;;;
        client <- getClient ;;
        response <- models_generateContent client
                      (analysisRequest youtubeUrl expectedVideoId oembed
                                       (isDetailed mode)) ;;
        let analysis := parseJsonResponse P (text response) in
        if negb (truthy analysis) then throw UnparsableResponse
        else if truthy (get analysis k_error)
        then throw_Error (get analysis k_error)
                         (ModelDeclinedIdentification (get analysis k_error))
        else
          (* GUARDA 3 *)
          analysis <- assign_prop analysis k_videoUrl (JString youtubeUrl) ;;
          (* GUARDA 4 *)
          let returnedId := get analysis k_videoId in
          if negb (truthy returnedId) then throw MissingVideoId
          else if negb (strict_eq_string returnedId expectedVideoId)
          then throw_Error returnedId (VideoIdMismatch returnedId expectedVideoId)
          else
            (* GUARDA 5 *)
            if negb (is_string (get analysis k_videoTitle))
            then throw TitleMismatch
            else
              matches <- titlesLooselyMatch_values
                           (get oembed k_title) (get analysis k_videoTitle) ;;
              if negb matches then throw TitleMismatch
              else
                let sources := sources_of_chunks (groundingChunks response) in
                analysis <- assign_prop analysis k_sources
                              (JArray (map source_value
                                         (uniqueSources youtubeUrl sources)) []) ;;
                ret analysis
  | _ => throw InvalidLink
  end.

(** The seek-and-capture chain of [extractFramesFromVideo].  [remaining] is
    [maxFrames - captured], so the test [captured < maxFrames] is
    [remaining <> 0]; [replies] are the events with which the element
    answers the seeks still to come.  The assignment to [video.currentTime]
    throws inside the event handler when the time is not finite, and then
    nothing settles the promise. *)
Fixpoint capture (file : File) (step : spec_float) (remaining captured : nat)
         (replies : list SeekReply) (frames : list (option jsstring))
  : M (list (option jsstring)) :=
  match remaining with
  | S remaining' =>
      let currentTime := number_mul (number_of_nat captured) step in
      if is_finite currentTime then
        emit (EvSeek currentTime) ;;;
        match replies with
        | Seeked dataURL :: replies' =>
            emit EvCapture ;;;
            capture file step remaining' (S captured) replies'
                    (frames ++ [at_index (split COMMA dataURL) 1])
        | SeekError :: _ => throw FrameExtractionFailed
        | [] => never
        end
      else never
  | O =>
      emit (EvRevokeObjectURL file) ;;;
      ret frames
  end.

Definition extractFramesFromVideo (file : File) (maxFrames : nat)
  : M (list (option jsstring)) :=
  emit (EvCreateObjectURL file) ;;;
  match video_load w file with
  | LoadedMetadata duration =>
      let step := number_div duration (number_of_nat maxFrames) in
      capture file step maxFrames 0 (video_seek w file) []
  | LoadError => throw FrameExtractionFailed
  | LoadSilent => never
  end.

Definition getAnalysisFromFile (file : File) : M value :=
  frames <- extractFramesFromVideo file 20 ;;
  let imageParts := frames in
  client <- getClient ;;
  response <- models_generateContent client (framesRequest imageParts) ;;
  let analysis := parseJsonResponse P (text response) in
  if negb (truthy analysis) then throw VisualAnalysisFailed
  else
    analysis <- assign_prop analysis k_videoTitle (JString (name file)) ;;
    analysis <- assign_prop analysis k_videoUrl JUndefined ;;
    ret analysis.

Definition analyzeFootballMatch (input : Input) : M value :=
  match input with
  | FileInput file => getAnalysisFromFile file
  | LinkInput url mode => getAnalysisFromWeb url mode
  end.

End Service.

(* ================================================================== *)
(** ** A reference platform

    The concrete examples run on a platform that implements a fragment of
    each built-in.  Inside the fragment it computes what the host computes;
    outside it declines ([None]), so that an answer [Some] is always the
    host's answer.
    - [ref_URL_parse] accepts [http://] and [https://] URLs made of a host of
      dot-separated labels of lower-case letters and digits whose last label
      has no digit, an optional path of letters, digits and [_ ~ @ - /], an
      optional query of letters, digits and [_ ~ . - = &], and an optional
      fragment of the same units.  On these the URL parser changes nothing
      (no percent-encoding, no dot segment, no IPv4 or IDNA processing).
    - [ref_JSON_parse] is a JSON decoder; of the number literals it accepts
      the decimal ones without exponent that binary64 arithmetic converts
      exactly or with one correctly rounded division.
    - [ref_toLowerCase] maps the letters A-Z and leaves the rest; it is the
      host's mapping on ASCII strings. *)

Module Reference.

Definition is_lower (c : codeunit) : bool := ((97 <=? c) && (c <=? 122))%N.
Definition is_upper (c : codeunit) : bool := ((65 <=? c) && (c <=? 90))%N.
Definition is_digit (c : codeunit) : bool := ((48 <=? c) && (c <=? 57))%N.
Definition is_alnum (c : codeunit) : bool :=
  is_lower c || is_upper c || is_digit c.

Definition host_unit (c : codeunit) : bool :=
  (is_lower c || is_digit c || (c =? 46))%N.
Definition path_unit (c : codeunit) : bool :=
  (is_alnum c || (c =? 95) || (c =? 126) || (c =? 64) || (c =? 45)
   || (c =? 47))%N.
Definition query_unit (c : codeunit) : bool :=
  (is_alnum c || (c =? 95) || (c =? 126) || (c =? 46) || (c =? 45)
   || (c =? 61) || (c =? 38))%N.

(** The units before the first [sep], and what follows it if it occurs. *)
Fixpoint break (sep : codeunit) (s : jsstring) : jsstring * option jsstring :=
  match s with
  | [] => ([], None)
  | c :: s' =>
      if N.eqb c sep then ([], Some s')
      else let (a, b) := break sep s' in (c :: a, b)
  end.

Definition strip_scheme (s : jsstring) : option jsstring :=
  if startsWith s (js "https://") then Some (skipn 8 s)
  else if startsWith s (js "http://") then Some (skipn 7 s)
  else None.

Definition valid_host (h : jsstring) : bool :=
  let labels := split 46%N h in
  forallb host_unit h
  && forallb nonempty labels
  && forallb is_lower (last labels []).

(** The pairs of a query string: the non-empty pieces between [&], each
    cut at its first [=]. *)
Definition parse_query (q : jsstring) : list (jsstring * jsstring) :=
  map (fun piece =>
         match break 61%N piece with
         | (k, Some x) => (k, x)
         | (k, None) => (k, [])
         end)
      (filter nonempty (split 38%N q)).

Definition ref_URL_parse (s : jsstring) : option URL :=
  match strip_scheme s with
  | None => None
  | Some rest =>
      let (before_fragment, fragment) := break 35%N rest in
      let (before_query, query) := break 63%N before_fragment in
      let (host, path) := break SLASH before_query in
      let path := match path with Some p => SLASH :: p | None => [SLASH] end in
      let query := match query with Some q => q | None => [] end in
      let fragment := match fragment with Some f => f | None => [] end in
      if valid_host host && forallb path_unit path
         && forallb query_unit query && forallb query_unit fragment
      then Some (mkURL host path (parse_query query))
      else None
  end.

Definition ref_toLowerCase (s : jsstring) : jsstring :=
  map (fun c => if is_upper c then (c + 32)%N else c) s.

(** *** JSON *)

Definition json_ws (c : codeunit) : bool :=
  ((c =? 32) || (c =? 9) || (c =? 10) || (c =? 13))%N.

Fixpoint skip_ws (s : jsstring) : jsstring :=
  match s with
  | c :: s' => if json_ws c then skip_ws s' else s
  | [] => []
  end.

Definition hex_value (c : codeunit) : option N :=
  (if is_digit c then Some (c - 48)
   else if (97 <=? c) && (c <=? 102) then Some (c - 87)
   else if (65 <=? c) && (c <=? 70) then Some (c - 55)
   else None)%N.

Definition hex4 (a b c d : codeunit) : option codeunit :=
  match hex_value a, hex_value b, hex_value c, hex_value d with
  | Some a, Some b, Some c, Some d => Some (((a * 16 + b) * 16 + c) * 16 + d)%N
  | _, _, _, _ => None
  end.

(** The units of a string literal after its opening quote, and the rest
    of the input after the closing one. *)
Fixpoint string_body (s acc : jsstring) : option (jsstring * jsstring) :=
  match s with
  | [] => None
  | c :: s' =>
      if (c =? 34)%N then Some (rev acc, s')
      else if (c =? 92)%N then
        match s' with
        | e :: s'' =>
            if (e =? 34)%N then string_body s'' (34%N :: acc)
            else if (e =? 92)%N then string_body s'' (92%N :: acc)
            else if (e =? 47)%N then string_body s'' (47%N :: acc)
            else if (e =? 98)%N then string_body s'' (8%N :: acc)
            else if (e =? 102)%N then string_body s'' (12%N :: acc)
            else if (e =? 110)%N then string_body s'' (10%N :: acc)
            else if (e =? 114)%N then string_body s'' (13%N :: acc)
            else if (e =? 116)%N then string_body s'' (9%N :: acc)
            else if (e =? 117)%N then
              match s'' with
              | h1 :: h2 :: h3 :: h4 :: s5 =>
                  match hex4 h1 h2 h3 h4 with
                  | Some u => string_body s5 (u :: acc)
                  | None => None
                  end
              | _ => None
              end
            else None
        | [] => None
        end
      else if (c <? 32)%N then None
      else string_body s' (c :: acc)
  end.

Fixpoint digits (s : jsstring) : jsstring * jsstring :=
  match s with
  | c :: s' =>
      if is_digit c then let (d, r) := digits s' in (c :: d, r) else ([], s)
  | [] => ([], [])
  end.

Definition decimal (d : jsstring) : Z :=
  fold_left (fun n c => 10 * n + Z.of_N (c - 48)) d 0.

(** The binary64 value of the integer [m] when it is written with the
    sign [negative]. *)
Definition number_of_Z (negative : bool) (m : Z) : spec_float :=
  binary_normalize 53 1024 (if negative then - m else m) 0 negative.

(** The value of a literal from its sign, the digits of its integer part
    and those of its fraction.  Below 2^53 an integer is exact, and with at
    most 22 fraction digits the power of ten is exact too, so that one
    division rounds correctly. *)
Definition number_value (negative : bool) (int : jsstring)
           (frac : option jsstring) : option value :=
  match frac with
  | None =>
      let m := decimal int in
      if m <? 2 ^ 53 then Some (JNumber (number_of_Z negative m)) else None
  | Some [] => None
  | Some f =>
      let m := decimal (int ++ f) in
      if (m <? 2 ^ 53) && (length f <=? 22)%nat then
        Some (JNumber (SFdiv 53 1024 (number_of_Z negative m)
                             (number_of_Z false (10 ^ Z.of_nat (length f)))))
      else None
  end.

Definition exponent_follows (s : jsstring) : bool :=
  match s with
  | e :: _ => ((e =? 101) || (e =? 69))%N
  | [] => false
  end.

(** A number literal at the head of [s].  The integer part has no leading
    zero; a literal with an exponent is declined. *)
Definition number (s : jsstring) : option (value * jsstring) :=
  let (negative, s1) :=
    match s with
    | c :: s' => if (c =? 45)%N then (true, s') else (false, s)
    | [] => (false, s)
    end in
  let (int, s2) := digits s1 in
  match int with
  | [] => None
  | c :: int' =>
      if (c =? 48)%N && nonempty int' then None
      else
        let (frac, s3) :=
          match s2 with
          | p :: s2' =>
              if (p =? 46)%N then
                let (f, r) := digits s2' in (Some f, r)
              else (None, s2)
          | [] => (None, s2)
          end in
        if exponent_follows s3 then None
        else option_map (fun v => (v, s3)) (number_value negative int frac)
  end.

(** A value at the head of [s]; [fuel] bounds the nesting. *)
Fixpoint json_value (fuel : nat) (s : jsstring) : option (value * jsstring) :=
  match fuel with
  | O => None
  | S fuel' =>
      match skip_ws s with
      | [] => None
      | c :: r =>
          if (c =? 123)%N then
            match skip_ws r with
            | d :: r' =>
                if (d =? 125)%N then Some (JObject [], r')
                else json_members fuel' r []
            | [] => None
            end
          else if (c =? 91)%N then
            match skip_ws r with
            | d :: r' =>
                if (d =? 93)%N then Some (JArray [] [], r')
                else json_elements fuel' r []
            | [] => None
            end
          else if (c =? 34)%N then
            option_map (fun '(str, r') => (JString str, r')) (string_body r [])
          else if startsWith (c :: r) (js "true") then
            Some (JBool true, skipn 4 (c :: r))
          else if startsWith (c :: r) (js "false") then
            Some (JBool false, skipn 5 (c :: r))
          else if startsWith (c :: r) (js "null") then
            Some (JNull, skipn 4 (c :: r))
          else number (c :: r)
      end
  end
with json_members (fuel : nat) (s : jsstring) (acc : list (jsstring * value))
  : option (value * jsstring) :=
  match fuel with
  | O => None
  | S fuel' =>
      match skip_ws s with
      | q :: r =>
          if (q =? 34)%N then
            match string_body r [] with
            | Some (k, r1) =>
                match skip_ws r1 with
                | colon :: r2 =>
                    if (colon =? 58)%N then
                      match json_value fuel' r2 with
                      | Some (v, r3) =>
                          match skip_ws r3 with
                          | d :: r4 =>
                              if (d =? 44)%N
                              then json_members fuel' r4 (assign k v acc)
                              else if (d =? 125)%N
                              then Some (JObject (assign k v acc), r4)
                              else None
                          | [] => None
                          end
                      | None => None
                      end
                    else None
                | [] => None
                end
            | None => None
            end
          else None
      | [] => None
      end
  end
with json_elements (fuel : nat) (s : jsstring) (acc : list value)
  : option (value * jsstring) :=
  match fuel with
  | O => None
  | S fuel' =>
      match json_value fuel' s with
      | Some (v, r) =>
          match skip_ws r with
          | d :: r' =>
              if (d =? 44)%N then json_elements fuel' r' (acc ++ [v])
              else if (d =? 93)%N then Some (JArray (acc ++ [v]) [], r')
              else None
          | [] => None
          end
      | None => None
      end
  end.

(** The whole text must be one value, white space apart.  Properties are
    kept in the order of their first occurrence and a repeated name keeps
    its last value; the service never enumerates them. *)
Definition ref_JSON_parse (s : jsstring) : option value :=
  match json_value (2 * length s + 2) s with
  | Some (v, r) => match skip_ws r with [] => Some v | _ => None end
  | None => None
  end.

Definition platform : Platform :=
  mkPlatform ref_URL_parse ref_JSON_parse ref_toLowerCase.

End Reference.

(** A text of the examples, written with an apostrophe wherever the text
    has a double quote. *)
Definition jq (s : String.string) : jsstring :=
  map (fun c => if (c =? 39)%N then 34%N else c) (js s).
Arguments jq s%_string_scope.


(* ================================================================== *)
(** ** Vocabulary of the statements *)

(** A path segment: not empty and without a slash. *)
Definition segment (id : jsstring) : Prop := id <> [] /\ ~ In SLASH id.

(** What may follow a segment in a path: nothing, or a slash and more. *)
Definition segment_end (rest : jsstring) : Prop :=
  rest = [] \/ exists r, rest = SLASH :: r.

(** Among the segments [parts], one equal to [k] has a successor. *)
Definition followed (k : jsstring) (parts : list jsstring) : Prop :=
  exists a x b, parts = a ++ k :: x :: b.

(** The first [v] parameter of the query is [id], and [id] is not empty. *)
Definition has_v (u : URL) (id : jsstring) : Prop :=
  searchParams_get (searchParams u) (js "v") = Some id /\ id <> [].

(** The query has no [v] parameter, or its first one is empty. *)
Definition no_v (u : URL) : Prop :=
  present (searchParams_get (searchParams u) (js "v")) = false.

(** The host is on the shortened domain. *)
Definition short_host (u : URL) : Prop :=
  endsWith (hostname u) (js "youtu.be") = true.

(** The units of which YouTube identifiers are made: letters, digits,
    [_] and [-]. *)
Definition id_unit (c : codeunit) : bool :=
  (Reference.is_alnum c || (c =? 95) || (c =? 45))%N.

(** An event of the generation endpoint. *)
Definition is_generate (ev : Event) : bool :=
  match ev with EvGenerate _ => true | _ => false end.

Definition is_revoke (ev : Event) : bool :=
  match ev with EvRevokeObjectURL _ => true | _ => false end.

(** The metadata verification of [url] fails in the world [w]: the link
    cannot be encoded, the request is rejected, the status is not a
    success, the body is not JSON, or the body has no (truthy) title. *)
Definition verification_fails (w : World) (url : jsstring) : bool :=
  match encodeURIComponent url with
  | None => true
  | Some encoded =>
      match fetch w (oembed_endpoint encoded) with
      | NetworkError => true
      | HttpResponse ok body =>
          negb ok
          || match body with
             | None => true
             | Some data => negb (truthy (get data k_title))
             end
      end
  end.

(** The prompt can be built from the verified metadata: its title and
    its channel convert to strings. *)
Definition prompt_builds (oembed : value) : bool :=
  stringifies (get oembed k_title) && stringifies (canal oembed).

(** The trimmed uris of a list of sources. *)
Definition source_keys (l : list GroundingSource) : list jsstring :=
  map source_key l.

(** The synthetic source of the original video. *)
Definition original_source (youtubeUrl : jsstring) : GroundingSource :=
  mkSource (Some analysed_video_title) youtubeUrl.

(** The filter of [uniqueSources] as a recursion along the list, carrying
    the keys of the sources kept so far; [uniqueSources_first_occurrences]
    proves that it computes the same list. *)
Fixpoint first_occurrences (seen : list jsstring) (l : list GroundingSource)
  : list GroundingSource :=
  match l with
  | [] => []
  | src :: l' =>
      let k := source_key src in
      if nonempty k && negb (existsb (eqb k) seen)
      then src :: first_occurrences (k :: seen) l'
      else first_occurrences seen l'
  end.

(** The keys in [seen] are the non-empty keys of the sources in [pre]. *)
Definition seen_of (pre : list GroundingSource) (seen : list jsstring) : Prop :=
  forall k, nonempty k = true ->
            existsb (eqb k) seen = existsb (fun s => eqb (source_key s) k) pre.

(* ================================================================== *)
(** ** Worlds of the examples *)

Module Examples.

Definition url_watch : jsstring := js "https://www.youtube.com/watch?v=ABC123".

Definition no_env : Env := mkEnv None None None.
Definition vite_env : Env := mkEnv (Some (js "secret")) None None.

Definition oembed_body : value :=
  JObject [(k_title, JString (js "Final 2022 - Melhores Momentos"));
           (k_author_name, JString (js "Canal"))].

Definition a_file : File := mkFile (js "jogo.mp4") 0.

Definition data_url : jsstring := js "data:image/jpeg;base64,AAAA".

(** A world where everything answers and the model echoes the expected
    identifier and a title equal to the verified one up to case. *)
Definition good_world : World :=
  mkWorld vite_env
    (fun _ => HttpResponse true (Some oembed_body))
    (fun _ _ =>
       GenResolved
         (mkGenResponse
            (Some (jq "Segue a analise: {'videoTitle':'FINAL 2022 - melhores momentos','videoId':'ABC123','videoUrl':'https://youtu.be/zzz'} Fim."))
            (Some [mkChunk (Some (mkWebChunk (Some (js "https://ge.globo.com/final"))
                                             (Some (js "ge"))));
                   mkChunk (Some (mkWebChunk (Some url_watch) None));
                   mkChunk None])))
    (fun _ => LoadedMetadata (number_of_nat 10))
    (fun _ => repeat (Seeked data_url) 20).

(** The same world with a model that echoes another identifier. *)
Definition swapped_world : World :=
  mkWorld vite_env
    (fetch good_world)
    (fun _ _ =>
       GenResolved
         (mkGenResponse
            (Some (jq "{'videoTitle':'Final 2022 - Melhores Momentos','videoId':'XYZ999'}"))
            None))
    (video_load good_world) (video_seek good_world).

(** The same world with a model that leaves the identifier out. *)
Definition silent_world : World :=
  mkWorld vite_env
    (fetch good_world)
    (fun _ _ =>
       GenResolved
         (mkGenResponse
            (Some (jq "{'videoTitle':'Final 2022 - Melhores Momentos'}"))
            None))
    (video_load good_world) (video_seek good_world).

(** The metadata endpoint answers with a status that is not a success. *)
Definition not_found_world : World :=
  mkWorld vite_env
    (fun _ => HttpResponse false None)
    (generateContent good_world)
    (video_load good_world) (video_seek good_world).

(** No credential is configured. *)
Definition keyless_world : World :=
  mkWorld no_env
    (fetch good_world) (generateContent good_world)
    (video_load good_world) (video_seek good_world).

(** The model declares that it cannot identify the match. *)
Definition declining_world : World :=
  mkWorld vite_env
    (fetch good_world)
    (fun _ _ =>
       GenResolved
         (mkGenResponse
            (Some (jq "{'error':'Incapaz de identificar a partida.'}"))
            None))
    (video_load good_world) (video_seek good_world).

(** The video element fires [error] instead of [loadedmetadata]. *)
Definition broken_video_world : World :=
  mkWorld vite_env
    (fetch good_world) (generateContent good_world)
    (fun _ => LoadError)
    (fun _ => []).

(** The video element fires [error] at the third seek. *)
Definition failing_seek_world : World :=
  mkWorld vite_env
    (fetch good_world) (generateContent good_world)
    (video_load good_world)
    (fun _ => [Seeked data_url; Seeked data_url; SeekError]).

Definition two_sources : list GroundingSource :=
  [mkSource (Some (js "ge")) (js " https://ge.globo.com/final ");
   mkSource None url_watch;
   mkSource (Some (js "again")) (js "https://ge.globo.com/final");
   mkSource None (js "   ")].

End Examples.

(* ================================================================== *)
(** ** Vocabulary of the further properties *)

(** The first of a list of optional strings that is present and not
    empty. *)
Fixpoint first_nonempty (l : list (option jsstring)) : option jsstring :=
  match l with
  | [] => None
  | Some (c :: s) :: _ => Some (c :: s)
  | _ :: l' => first_nonempty l'
  end.

(** No two adjacent units of [s] are both white space. *)
Fixpoint spaces_apart (s : jsstring) : bool :=
  match s with
  | c :: ((d :: _) as s') => negb (is_space c && is_space d) && spaces_apart s'
  | _ => true
  end.

Definition is_fetch (ev : Event) : bool :=
  match ev with EvFetch _ => true | _ => false end.

Definition is_seeked (r : SeekReply) : bool :=
  match r with Seeked _ => true | SeekError => false end.

(** The events of [n] captures in a row starting with capture number
    [captured]: a seek to [captured * step], the capture, and so on. *)
Fixpoint capture_events (step : spec_float) (n captured : nat) : list Event :=
  match n with
  | O => []
  | S n' =>
      EvSeek (number_mul (number_of_nat captured) step) :: EvCapture
        :: capture_events step n' (S captured)
  end.

(** All the seek times of [n] captures from [captured] on are finite. *)
Fixpoint finite_times (step : spec_float) (n captured : nat) : bool :=
  match n with
  | O => true
  | S n' =>
      is_finite (number_mul (number_of_nat captured) step)
      && finite_times step n' (S captured)
  end.

(** The image data of a seek reply, as the sampler stores it. *)
Definition frame_of (r : SeekReply) : option jsstring :=
  match r with
  | Seeked dataURL => at_index (split COMMA dataURL) 1
  | SeekError => None
  end.

(** The document the link pipeline returns in [Examples.good_world]. *)
Definition good_document : value :=
  JObject
    [(k_videoTitle, JString (js "FINAL 2022 - melhores momentos"));
     (k_videoId, JString (js "ABC123"));
     (k_videoUrl, JString Examples.url_watch);
     (k_sources,
      JArray
        (map source_value
           [original_source Examples.url_watch;
            mkSource (Some (js "ge")) (js "https://ge.globo.com/final")])
        [])].

(** The model echoes the identifier but gives another title. *)
Definition retitled_world : World :=
  mkWorld Examples.vite_env
    (fetch Examples.good_world)
    (fun _ _ =>
       GenResolved
         (mkGenResponse
            (Some (jq "{'videoTitle':'Semifinal 2014','videoId':'ABC123'}"))
            None))
    (video_load Examples.good_world) (video_seek Examples.good_world).

(** The generation endpoint cannot be reached. *)
Definition offline_world : World :=
  mkWorld Examples.vite_env
    (fetch Examples.good_world)
    (fun _ _ => GenRejected (js "Failed to fetch"))
    (video_load Examples.good_world) (video_seek Examples.good_world).

(** The model answers with a number between braces in the wrong order. *)
Definition number_world : World :=
  mkWorld Examples.vite_env
    (fetch Examples.good_world)
    (fun _ _ =>
       GenResolved
         (mkGenResponse
            (Some (js "fim" ++ RBRACE :: js "123" ++ LBRACE :: js "inicio"))
            None))
    (video_load Examples.good_world) (video_seek Examples.good_world).

(** A world whose model declares an error that has no string form: the
    field [error] is an object with an own [toString]. *)
Definition unprintable_world : World :=
  mkWorld Examples.vite_env
    (fetch Examples.good_world)
    (fun _ _ =>
       GenResolved
         (mkGenResponse (Some (jq "{'error':{'toString':1}}")) None))
    (video_load Examples.good_world) (video_seek Examples.good_world).

(** The link request of the examples, with the metadata request it sends. *)
Definition watch_endpoint : jsstring :=
  oembed_endpoint (js "https%3A%2F%2Fwww.youtube.com%2Fwatch%3Fv%3DABC123").

Definition watch_request : GenRequest :=
  analysisRequest Examples.url_watch (js "ABC123") Examples.oembed_body false.

(** The [n] captures of the sampler all go through: every seek time is
    finite and the element answers each of the [n] seeks with [seeked]. *)
Definition sampling_completes (step : spec_float) (n : nat)
           (replies : list SeekReply) : bool :=
  finite_times step n 0
  && (n <=? length replies)%nat
  && forallb is_seeked (firstn n replies).

(** The video element answers two seeks and then falls silent. *)
Definition stalling_world : World :=
  mkWorld Examples.vite_env
    (fetch Examples.good_world) (generateContent Examples.good_world)
    (video_load Examples.good_world)
    (fun _ => [Seeked Examples.data_url; Seeked Examples.data_url]).

(** The document the file pipeline returns in [Examples.declining_world]. *)
Definition declined_document : value :=
  JObject [(k_error, JString (js "Incapaz de identificar a partida."));
           (k_videoTitle, JString (js "jogo.mp4"));
           (k_videoUrl, JUndefined)].

(* ================================================================== *)
(** * Properties *)

Unset Implicit Arguments.

(** ** Strings and arrays *)

Lemma eqb_eq (a b : jsstring) : eqb a b = true <-> a = b.
Proof.
  revert b; induction a as [|x a IH]; intros [|y b]; simpl;
    try (split; [discriminate | intro E; discriminate E]).
  - split; reflexivity.
  - rewrite andb_true_iff, N.eqb_eq, IH.
    split; [intros [-> ->]; reflexivity | intro E; injection E; auto].
Qed.

Lemma eqb_refl (a : jsstring) : eqb a a = true.
Proof. apply eqb_eq; reflexivity. Qed.

Lemma eqb_neq (a b : jsstring) : a <> b -> eqb a b = false.
Proof.
  intro N. destruct (eqb a b) eqn:E; [|reflexivity].
  apply eqb_eq in E. contradiction.
Qed.

Lemma eqb_sym (a b : jsstring) : eqb a b = eqb b a.
Proof.
  destruct (eqb b a) eqn:E.
  - apply eqb_eq in E; subst; apply eqb_refl.
  - apply eqb_neq; intros ->; rewrite eqb_refl in E; discriminate.
Qed.

Lemma nonempty_true (s : jsstring) : nonempty s = true <-> s <> [].
Proof. destruct s; simpl; split; congruence. Qed.

Lemma present_Some (s : jsstring) : s <> [] -> present (Some s) = true.
Proof. destruct s; simpl; congruence. Qed.

Lemma present_inv (o : option jsstring) :
  present o = true -> exists c s, o = Some (c :: s).
Proof. destruct o as [[|c s]|]; simpl; try discriminate; eauto. Qed.

(** ** Own properties *)

Lemma lookup_assign_same k x props : lookup k (assign k x props) = Some x.
Proof.
  induction props as [|[k' y] props IH]; simpl.
  - rewrite eqb_refl; reflexivity.
  - destruct (eqb k' k) eqn:E; simpl; rewrite E; auto.
Qed.

Lemma lookup_assign_other k k' x props :
  k' <> k -> lookup k' (assign k x props) = lookup k' props.
Proof.
  intro N. induction props as [|[k0 y] props IH]; simpl.
  - rewrite (eqb_neq k k'); auto.
  - destruct (eqb k0 k) eqn:E; simpl.
    + apply eqb_eq in E; subst k0.
      rewrite (eqb_neq k k'); auto.
    + rewrite IH; reflexivity.
Qed.

Lemma get_set_same v k x v' : set v k x = Some v' -> get v' k = x.
Proof.
  destruct v; simpl; intro H; inversion H; subst; simpl;
    rewrite lookup_assign_same; reflexivity.
Qed.

Lemma get_set_other v k k' x v' :
  set v k x = Some v' -> k' <> k -> get v' k' = get v k'.
Proof.
  destruct v; simpl; intros H N; inversion H; subst; simpl;
    rewrite lookup_assign_other; auto.
Qed.

Lemma strict_eq_string_true v s :
  strict_eq_string v s = true <-> v = JString s.
Proof.
  destruct v; simpl; split; try discriminate.
  - intro E; apply eqb_eq in E; subst; reflexivity.
  - intro E; inversion E; apply eqb_refl.
Qed.

(** ** Computations *)

Lemma bind_resolved A B (m : M A) (k : A -> M B) t b :
  bind m k = (t, Resolved b) ->
  exists t1 a t2, m = (t1, Resolved a) /\ k a = (t2, Resolved b) /\ t = t1 ++ t2.
Proof.
  unfold bind. destruct m as [t1 [a| |]]; try discriminate.
  destruct (k a) as [t2 o] eqn:E. intro H; inversion H; subst.
  exists t1, a, t2. auto.
Qed.

Lemma bind_of_resolved A B (k : A -> M B) t a :
  bind (t, Resolved a) k = (t ++ fst (k a), snd (k a)).
Proof. unfold bind. destruct (k a); reflexivity. Qed.

Lemma bind_of_rejected A B (k : A -> M B) t e :
  bind (t, Rejected e) k = (t, Rejected e).
Proof. reflexivity. Qed.

Lemma assign_prop_resolved v k x t v' :
  assign_prop v k x = (t, Resolved v') -> set v k x = Some v' /\ t = [].
Proof.
  unfold assign_prop. destruct (set v k x); unfold ret, throw; intro H;
    inversion H; auto.
Qed.

Lemma outcome_bind A B (m : M A) (k : A -> M B) t a :
  m = (t, Resolved a) -> outcome (bind m k) = outcome (k a).
Proof. intros ->. unfold bind, outcome. destruct (k a); reflexivity. Qed.

Lemma throw_Error_rejects A v e :
  @throw_Error A v e = ([], Rejected (if stringifies v then e else TypeError)).
Proof.
  unfold throw_Error, interpolate. simpl forallb.
  destruct (stringifies v); reflexivity.
Qed.

Lemma interpolate_prompt oembed :
  prompt_builds oembed = true ->
  interpolate [get oembed k_title; canal oembed] = ([], Resolved tt).
Proof.
  unfold prompt_builds, interpolate. simpl forallb. intro H.
  rewrite andb_true_r, H. reflexivity.
Qed.

Lemma interpolate_silent vs t o :
  interpolate vs = (t, o) -> t = [].
Proof.
  unfold interpolate. destruct (forallb stringifies vs); intro H;
    inversion H; reflexivity.
Qed.

Lemma getClient_resolved w key :
  getApiKey w = Some key -> key <> [] -> getClient w = ([], Resolved key).
Proof.
  intros H N. unfold getClient. rewrite H. destruct key; [contradiction|].
  reflexivity.
Qed.

Lemma getClient_rejected w :
  present (getApiKey w) = false -> getClient w = ([], Rejected MissingCredential).
Proof.
  unfold getClient. destruct (getApiKey w) as [[|c k]|]; simpl;
    try discriminate; reflexivity.
Qed.

Lemma models_generateContent_resolved w key request response :
  generateContent w key request = GenResolved response ->
  models_generateContent w key request = ([EvGenerate request], Resolved response).
Proof. intro H. unfold models_generateContent. rewrite H. reflexivity. Qed.

(* ================================================================== *)
(** ** The title matcher on two pairs of titles *)

Example titles_match_up_to_case_and_spaces :
  titlesLooselyMatch Reference.platform
    (js "Team A vs Team B") (js "team a  vs   team b") = true.
Proof. vm_compute. reflexivity. Qed.

Example unrelated_titles_do_not_match :
  titlesLooselyMatch Reference.platform
    (js "Team A vs B") (js "Team C vs D") = false.
Proof. vm_compute. reflexivity. Qed.

(* ================================================================== *)
(** ** The link pipeline pins the identity (C1) *)

(** C1. When the link pipeline returns a document, the [videoUrl] of that
    document is the link given by the user, unit for unit, and its
    [videoId] is the identifier that [extractYouTubeId] computes from that
    link. *)
Theorem web_success_pins_url_and_id :
  forall (P : Platform) (w : World) (youtubeUrl : jsstring) (mode : Mode)
         (t : list Event) (doc : value),
    getAnalysisFromWeb P w youtubeUrl mode = (t, Resolved doc) ->
    get doc k_videoUrl = JString youtubeUrl
    /\ exists id, extractYouTubeId P youtubeUrl = Some id
                  /\ get doc k_videoId = JString id.
Proof.
  intros P w url mode t doc H.
  unfold getAnalysisFromWeb in H.
  destruct (extractYouTubeId P url) as [[|c id]|] eqn:Ex; try discriminate H.
  apply bind_resolved in H as (t1 & oembed & t2 & _ & H & _).
  destruct (negb (truthy (get_opt oembed k_title))); try discriminate H.
  apply bind_resolved in H as (t0 & [] & t0' & _ & H & _).
  apply bind_resolved in H as (t3 & client & t4 & _ & H & _).
  apply bind_resolved in H as (t5 & response & t6 & _ & H & _).
  destruct (negb (truthy (parseJsonResponse P (text response))));
    try discriminate H.
  destruct (truthy (get (parseJsonResponse P (text response)) k_error));
    [rewrite throw_Error_rejects in H; discriminate H|].
  apply bind_resolved in H as (t7 & pinned & t8 & Hpin & H & _).
  apply assign_prop_resolved in Hpin as [Hpin _].
  destruct (negb (truthy (get pinned k_videoId))); try discriminate H.
  destruct (negb (strict_eq_string (get pinned k_videoId) (c :: id))) eqn:Eid;
    [rewrite throw_Error_rejects in H; discriminate H|].
  destruct (negb (is_string (get pinned k_videoTitle))); try discriminate H.
  apply bind_resolved in H as (t9 & matches & t10 & _ & H & _).
  destruct (negb matches); try discriminate H.
  apply bind_resolved in H as (t11 & final & t12 & Hsrc & H & _).
  apply assign_prop_resolved in Hsrc as [Hsrc _].
  unfold ret in H; inversion H; subst doc.
  apply negb_false_iff, strict_eq_string_true in Eid.
  split.
  - rewrite (get_set_other _ _ _ _ _ Hsrc) by (vm_compute; discriminate).
    apply (get_set_same _ _ _ _ Hpin).
  - exists (c :: id). split; [reflexivity|].
    rewrite (get_set_other _ _ _ _ _ Hsrc) by (vm_compute; discriminate).
    exact Eid.
Qed.

(** The successful run of the end-to-end example: the document comes back
    with the link of the user and the extracted identifier. *)
Lemma web_success_pins_url_and_id_witness :
  exists t doc,
    getAnalysisFromWeb Reference.platform Examples.good_world
                       Examples.url_watch web_mode = (t, Resolved doc)
    /\ get doc k_videoUrl = JString Examples.url_watch
    /\ exists id, extractYouTubeId Reference.platform Examples.url_watch = Some id
                  /\ get doc k_videoId = JString id.
Proof.
  eexists; eexists; split.
  - vm_compute; reflexivity.
  - eapply (web_success_pins_url_and_id Reference.platform Examples.good_world
              Examples.url_watch web_mode).
    vm_compute; reflexivity.
Defined.

(* ================================================================== *)
(** ** The identifier guard (C2) *)

(** The link pipeline up to the decoded answer: once the identifier is
    extracted, the metadata verified, the prompt built, the credential
    found and the generation call answered, what remains is decided by the
    answer. *)
Lemma web_after_generation :
  forall (P : Platform) (w : World) (youtubeUrl : jsstring) (mode : Mode)
         (id : jsstring) (t1 : list Event) (oembed : value) (key : jsstring)
         (response : GenResponse),
    extractYouTubeId P youtubeUrl = Some id -> id <> [] ->
    fetchYouTubeOEmbed w youtubeUrl = (t1, Resolved oembed) ->
    truthy (get oembed k_title) = true ->
    prompt_builds oembed = true ->
    getApiKey w = Some key -> key <> [] ->
    generateContent w key (analysisRequest youtubeUrl id oembed (isDetailed mode))
      = GenResolved response ->
    forall props,
      parseJsonResponse P (text response) = JObject props ->
      truthy (get (JObject props) k_error) = false ->
      outcome (getAnalysisFromWeb P w youtubeUrl mode) =
      let pinned := JObject (assign k_videoUrl (JString youtubeUrl) props) in
      let returnedId := get pinned k_videoId in
      if negb (truthy returnedId) then Rejected MissingVideoId
      else if negb (strict_eq_string returnedId id)
      then Rejected (if stringifies returnedId
                     then VideoIdMismatch returnedId id else TypeError)
      else if negb (is_string (get pinned k_videoTitle)) then Rejected TitleMismatch
      else
        outcome
          (matches <- titlesLooselyMatch_values P (get oembed k_title)
                        (get pinned k_videoTitle) ;;
           if negb matches then throw TitleMismatch
           else
             analysis <- assign_prop pinned k_sources
                           (JArray
                              (map source_value
                                 (uniqueSources youtubeUrl
                                    (sources_of_chunks (groundingChunks response))))
                              []) ;;
             ret analysis).
Proof.
  intros P w url mode id t1 oembed key response Ex Hid Hf Ht Hb Hk Hkey Hg
         props Hp He.
  unfold getAnalysisFromWeb.
  rewrite Ex. destruct id as [|c id]; [contradiction|].
  rewrite (outcome_bind _ _ _ _ _ _ Hf).
  unfold get_opt. rewrite Ht. unfold negb at 1. cbv iota.
  rewrite (outcome_bind _ _ _ _ _ _ (interpolate_prompt _ Hb)).
  rewrite (outcome_bind _ _ _ _ _ _ (getClient_resolved _ _ Hk Hkey)).
  rewrite (outcome_bind _ _ _ _ _ _
             (models_generateContent_resolved _ _ _ _ Hg)).
  rewrite Hp, He.
  unfold truthy at 1, negb at 1. cbv iota.
  rewrite (outcome_bind _ _ _ _
             [] (JObject (assign k_videoUrl (JString url) props)))
    by reflexivity.
  cbv zeta.
  destruct (negb (truthy (get (JObject (assign k_videoUrl (JString url) props))
                              k_videoId))); [reflexivity|].
  destruct (negb (strict_eq_string
                    (get (JObject (assign k_videoUrl (JString url) props))
                         k_videoId) (c :: id)));
    [rewrite throw_Error_rejects; reflexivity|].
  destruct (negb (is_string
                    (get (JObject (assign k_videoUrl (JString url) props))
                         k_videoTitle))); reflexivity.
Qed.

Lemma get_pinned_videoId url props :
  get (JObject (assign k_videoUrl (JString url) props)) k_videoId
  = get (JObject props) k_videoId.
Proof.
  simpl. rewrite lookup_assign_other by (vm_compute; discriminate).
  reflexivity.
Qed.

(** C2. In the link pipeline, once an object has been decoded that
    declares no error: when its [videoId] is absent or empty the pipeline
    ends with MissingVideoId; when it is a non-empty string different from
    the extracted identifier (compared unit by unit) the pipeline ends with
    VideoIdMismatch, which carries both values; and whatever the field
    holds, no document is returned unless it is exactly the extracted
    identifier. *)
Theorem identifier_guard :
  forall (P : Platform) (w : World) (youtubeUrl : jsstring) (mode : Mode)
         (id : jsstring) (t1 : list Event) (oembed : value) (key : jsstring)
         (response : GenResponse) (props : list (jsstring * value)),
    extractYouTubeId P youtubeUrl = Some id -> id <> [] ->
    fetchYouTubeOEmbed w youtubeUrl = (t1, Resolved oembed) ->
    truthy (get oembed k_title) = true ->
    prompt_builds oembed = true ->
    getApiKey w = Some key -> key <> [] ->
    generateContent w key (analysisRequest youtubeUrl id oembed (isDetailed mode))
      = GenResolved response ->
    parseJsonResponse P (text response) = JObject props ->
    truthy (get (JObject props) k_error) = false ->
    let result := outcome (getAnalysisFromWeb P w youtubeUrl mode) in
    (lookup k_videoId props = None \/ lookup k_videoId props = Some (JString []) ->
     result = Rejected MissingVideoId)
    /\ (forall s, lookup k_videoId props = Some (JString s) -> s <> [] -> s <> id ->
                  result = Rejected (VideoIdMismatch (JString s) id))
    /\ (lookup k_videoId props <> Some (JString id) ->
        forall doc, result <> Resolved doc).
Proof.
  intros P w url mode id t1 oembed key response props
         Ex Hid Hf Ht Hb Hk Hkey Hg Hp He result.
  subst result.
  rewrite (web_after_generation P w url mode id t1 oembed key response
             Ex Hid Hf Ht Hb Hk Hkey Hg props Hp He).
  cbv zeta. rewrite get_pinned_videoId.
  repeat split.
  - intros [Habs | Hemp]; simpl; rewrite ?Habs, ?Hemp; reflexivity.
  - intros s Hs Hne Hdiff.
    assert (G : get (JObject props) k_videoId = JString s)
      by (simpl; rewrite Hs; reflexivity).
    assert (T : truthy (JString s) = true)
      by (destruct s; [contradiction | reflexivity]).
    assert (Q : strict_eq_string (JString s) id = false)
      by (apply eqb_neq; exact Hdiff).
    rewrite G, T, Q. reflexivity.
  - intros Hneq doc.
    destruct (negb (truthy (get (JObject props) k_videoId)));
      [discriminate|].
    destruct (negb (strict_eq_string (get (JObject props) k_videoId) id)) eqn:E;
      [discriminate|].
    exfalso. apply Hneq.
    apply negb_false_iff, strict_eq_string_true in E.
    simpl in E. destruct (lookup k_videoId props); congruence.
Qed.

(** The two runs of the end-to-end examples: a model that echoes another
    identifier, and a model that echoes none. *)
Lemma identifier_guard_witness :
  outcome (getAnalysisFromWeb Reference.platform Examples.swapped_world
                              Examples.url_watch web_mode)
  = Rejected (VideoIdMismatch (JString (js "XYZ999")) (js "ABC123"))
  /\ outcome (getAnalysisFromWeb Reference.platform Examples.silent_world
                                 Examples.url_watch web_mode)
     = Rejected MissingVideoId.
Proof.
  split.
  - refine (proj1 (proj2 (identifier_guard Reference.platform
             Examples.swapped_world Examples.url_watch web_mode (js "ABC123")
             _ Examples.oembed_body (js "secret") _ _ _ _ _ _ _ _ _ _ _ _))
             (js "XYZ999") _ _ _);
      try (vm_compute; reflexivity); vm_compute; discriminate.
  - refine (proj1 (identifier_guard Reference.platform
             Examples.silent_world Examples.url_watch web_mode (js "ABC123")
             _ Examples.oembed_body (js "secret") _ _ _ _ _ _ _ _ _ _ _ _) _);
      try (vm_compute; reflexivity); try (vm_compute; discriminate).
    left. vm_compute. reflexivity.
Defined.

(* ================================================================== *)
(** ** A failed verification stops the pipeline (C3) *)

(** What [fetchYouTubeOEmbed] yields when the verification fails: a value
    without a truthy title, after at most the one request. *)
Lemma fetchYouTubeOEmbed_fails w url :
  verification_fails w url = true ->
  exists t oembed,
    fetchYouTubeOEmbed w url = (t, Resolved oembed)
    /\ truthy (get_opt oembed k_title) = false
    /\ forall ev, In ev t -> is_generate ev = false.
Proof.
  unfold verification_fails, fetchYouTubeOEmbed.
  destruct (encodeURIComponent url) as [encoded|].
  - destruct (fetch w (oembed_endpoint encoded)) as [|ok body]; intro H.
    + exists [EvFetch (oembed_endpoint encoded)], JNull.
      repeat split; intros ev [<-|[]]; reflexivity.
    + destruct ok; simpl in H.
      * destruct body as [data|].
        -- eexists; eexists; split; [reflexivity|]. split.
           ++ apply negb_true_iff in H. exact H.
           ++ intros ev [<-|[]]; reflexivity.
        -- exists [EvFetch (oembed_endpoint encoded)], JNull.
           repeat split; intros ev [<-|[]]; reflexivity.
      * exists [EvFetch (oembed_endpoint encoded)], JNull.
        repeat split; intros ev [<-|[]]; reflexivity.
  - intros _. exists [], JNull. repeat split. intros ev [].
Qed.

(** C3. When the identifier has been extracted and the metadata
    verification fails (the request is rejected, the status is not a
    success, or the answer has no title), the link pipeline ends with
    UnverifiableVideo and its trace holds no generation call. *)
Theorem failed_verification_never_generates :
  forall (P : Platform) (w : World) (youtubeUrl : jsstring) (mode : Mode),
    present (extractYouTubeId P youtubeUrl) = true ->
    verification_fails w youtubeUrl = true ->
    outcome (getAnalysisFromWeb P w youtubeUrl mode) = Rejected UnverifiableVideo
    /\ forall ev, In ev (trace (getAnalysisFromWeb P w youtubeUrl mode)) ->
                  is_generate ev = false.
Proof.
  intros P w url mode Hex Hfail.
  apply present_inv in Hex as (c & id & Hex).
  destruct (fetchYouTubeOEmbed_fails w url Hfail) as (t & oembed & Hf & Ht & Hev).
  unfold getAnalysisFromWeb. rewrite Hex, Hf.
  unfold bind. rewrite Ht. simpl. split; [reflexivity|].
  intros ev Hin. rewrite app_nil_r in Hin. auto.
Qed.

(** The run of the end-to-end example: the metadata endpoint answers with
    a status that is not a success. *)
Lemma failed_verification_never_generates_witness :
  outcome (getAnalysisFromWeb Reference.platform Examples.not_found_world
                              Examples.url_watch web_mode)
  = Rejected UnverifiableVideo
  /\ forall ev,
      In ev (trace (getAnalysisFromWeb Reference.platform
                      Examples.not_found_world Examples.url_watch web_mode)) ->
      is_generate ev = false.
Proof.
  apply (failed_verification_never_generates Reference.platform
           Examples.not_found_world Examples.url_watch web_mode).
  - vm_compute; reflexivity.
  - vm_compute; reflexivity.
Defined.

(* ================================================================== *)
(** ** The credential is read at the generation step (C4) *)

(** [fetchYouTubeOEmbed] always resolves, after at most one request. *)
Lemma fetchYouTubeOEmbed_resolves w url :
  exists t oembed,
    fetchYouTubeOEmbed w url = (t, Resolved oembed)
    /\ (forall ev, In ev t -> is_generate ev = false)
    /\ (verification_fails w url = false ->
        truthy (get_opt oembed k_title) = true
        /\ exists encoded, encodeURIComponent url = Some encoded
                           /\ t = [EvFetch (oembed_endpoint encoded)]).
Proof.
  unfold verification_fails, fetchYouTubeOEmbed.
  destruct (encodeURIComponent url) as [encoded|].
  - destruct (fetch w (oembed_endpoint encoded)) as [|[|] [data|]];
      eexists; eexists; (split; [reflexivity|]);
      (split; [intros ev [<-|[]]; reflexivity|]);
      simpl; try discriminate.
    intro H. apply negb_false_iff in H. split; [exact H|].
    exists encoded. split; reflexivity.
  - exists [], JNull. repeat split; try discriminate. intros ev [].
Qed.

Lemma trace_emit_bind A ev (k : unit -> M A) :
  trace (bind (emit ev) k) = ev :: trace (k tt).
Proof. unfold bind, emit, trace. destruct (k tt); reflexivity. Qed.

Lemma outcome_emit_bind A ev (k : unit -> M A) :
  outcome (bind (emit ev) k) = outcome (k tt).
Proof. unfold bind, emit, outcome. destruct (k tt); reflexivity. Qed.

Lemma capture_never_generates file step remaining :
  forall captured replies frames ev,
    In ev (trace (capture file step remaining captured replies frames)) ->
    is_generate ev = false.
Proof.
  induction remaining as [|remaining IH]; intros captured replies frames ev;
    cbn [capture].
  - rewrite trace_emit_bind. intros [<-|[]]. reflexivity.
  - cbv zeta.
    destruct (is_finite (number_mul (number_of_nat captured) step));
      [|intros []].
    rewrite trace_emit_bind.
    destruct replies as [|[dataURL|] replies].
    + intros [<-|[]]. reflexivity.
    + rewrite trace_emit_bind.
      intros [<-|[<-|Hin]]; try reflexivity.
      exact (IH _ _ _ _ Hin).
    + intros [<-|[]]. reflexivity.
Qed.

Lemma extractFramesFromVideo_never_generates w file maxFrames ev :
  In ev (trace (extractFramesFromVideo w file maxFrames)) ->
  is_generate ev = false.
Proof.
  unfold extractFramesFromVideo. rewrite trace_emit_bind.
  destruct (video_load w file) as [duration| |].
  - intros [<-|Hin]; [reflexivity|].
    exact (capture_never_generates _ _ _ _ _ _ _ Hin).
  - intros [<-|[]]. reflexivity.
  - intros [<-|[]]. reflexivity.
Qed.

Lemma prompt_builds_forallb oembed :
  forallb stringifies [get oembed k_title; canal oembed] = prompt_builds oembed.
Proof. unfold prompt_builds. simpl. rewrite andb_true_r. reflexivity. Qed.

(** C4, as the code has it.  While no credential is configured, no request
    reaches the generation endpoint and none returns a document.  The
    credential is read when the generation call is about to be made: a link
    request whose identifier is extracted, whose metadata is verified and
    whose prompt is built ends with MissingCredential after the metadata
    request, and a file request whose frames have been sampled ends with
    MissingCredential after the sampling. *)
Theorem missing_credential_stops_at_generation :
  forall (P : Platform) (w : World) (input : Input),
    present (getApiKey w) = false ->
    let run := analyzeFootballMatch P w input in
    (forall ev, In ev (trace run) -> is_generate ev = false)
    /\ (forall doc, outcome run <> Resolved doc)
    /\ (forall url mode t oembed,
           input = LinkInput url mode ->
           present (extractYouTubeId P url) = true ->
           fetchYouTubeOEmbed w url = (t, Resolved oembed) ->
           truthy (get oembed k_title) = true ->
           prompt_builds oembed = true ->
           run = (t, Rejected MissingCredential))
    /\ (forall file t frames,
           input = FileInput file ->
           extractFramesFromVideo w file 20 = (t, Resolved frames) ->
           run = (t, Rejected MissingCredential)).
Proof.
  intros P w input Hkey run. subst run.
  pose proof (getClient_rejected w Hkey) as Hc.
  destruct input as [file|url mode]; simpl analyzeFootballMatch.
  - (* file *)
    unfold getAnalysisFromFile.
    pose proof (extractFramesFromVideo_never_generates w file 20) as Hno.
    destruct (extractFramesFromVideo w file 20) as [t [frames| e |]] eqn:E.
    + rewrite bind_of_resolved. rewrite Hc. rewrite bind_of_rejected. simpl.
      rewrite app_nil_r.
      split; [exact Hno|]. split; [discriminate|].
      split; [intros url mode t' oembed Hin; discriminate Hin|].
      intros file' t' frames' Hin He. inversion Hin; subst file'.
      rewrite E in He. inversion He; subst. reflexivity.
    + rewrite bind_of_rejected. simpl.
      split; [exact Hno|]. split; [discriminate|].
      split; [intros url mode t' oembed Hin; discriminate Hin|].
      intros file' t' frames' Hin He. inversion Hin; subst file'.
      rewrite E in He. discriminate He.
    + simpl.
      split; [exact Hno|]. split; [discriminate|].
      split; [intros url mode t' oembed Hin; discriminate Hin|].
      intros file' t' frames' Hin He. inversion Hin; subst file'.
      rewrite E in He. discriminate He.
  - (* link *)
    unfold getAnalysisFromWeb.
    destruct (fetchYouTubeOEmbed_resolves w url) as (t & oembed & Hf & Hno & _).
    destruct (extractYouTubeId P url) as [[|c id]|] eqn:Ex.
    1, 3: simpl; (split; [intros ev []|]); (split; [discriminate|]);
      (split; [|intros file t' frames Hin; discriminate Hin]);
      intros url' mode' t' oembed' Hin Hp; inversion Hin; subst;
      rewrite Ex in Hp; discriminate Hp.
    rewrite Hf, bind_of_resolved.
    destruct (negb (truthy (get_opt oembed k_title))) eqn:Et.
    + simpl. rewrite app_nil_r.
      split; [exact Hno|]. split; [discriminate|].
      split; [|intros file t' frames Hin; discriminate Hin].
      intros url' mode' t' oembed' Hin _ Hf' Ht' _.
      inversion Hin; subst url' mode'.
      rewrite Hf in Hf'. inversion Hf'; subst.
      unfold get_opt in Et. rewrite Ht' in Et. discriminate Et.
    + unfold interpolate. rewrite prompt_builds_forallb.
      destruct (prompt_builds oembed) eqn:Eb.
      * unfold ret at 1. rewrite bind_of_resolved.
        rewrite Hc, bind_of_rejected. simpl. rewrite !app_nil_r.
        split; [exact Hno|]. split; [discriminate|].
        split; [|intros file t' frames Hin; discriminate Hin].
        intros url' mode' t' oembed' Hin _ Hf' _ _.
        inversion Hin; subst url' mode'.
        rewrite Hf in Hf'. inversion Hf'; subst. reflexivity.
      * unfold throw at 1. rewrite bind_of_rejected. simpl. rewrite app_nil_r.
        split; [exact Hno|]. split; [discriminate|].
        split; [|intros file t' frames Hin; discriminate Hin].
        intros url' mode' t' oembed' Hin _ Hf' _ Hb'.
        inversion Hin; subst url' mode'.
        rewrite Hf in Hf'. inversion Hf'; subst.
        rewrite Hb' in Eb. discriminate Eb.
Qed.

(** A link request in a world without credential: the identifier is
    extracted, the metadata verified, and the credential missed after the
    one metadata request. *)
Lemma missing_credential_stops_at_generation_witness :
  analyzeFootballMatch Reference.platform Examples.keyless_world
    (LinkInput Examples.url_watch web_mode)
  = ([EvFetch (oembed_endpoint
                 (js "https%3A%2F%2Fwww.youtube.com%2Fwatch%3Fv%3DABC123"))],
     Rejected MissingCredential).
Proof.
  refine (proj1 (proj2 (proj2
            (missing_credential_stops_at_generation Reference.platform
               Examples.keyless_world (LinkInput Examples.url_watch web_mode) _)))
            Examples.url_watch web_mode _ Examples.oembed_body _ _ _ _ _);
    vm_compute; reflexivity.
Defined.

(** C4 fails as it is stated: without a credential the link pipeline asks
    the metadata endpoint before it fails, the file pipeline creates the
    object URL and samples the frames before it fails, and a request with
    an unusable link fails with InvalidLink. *)
Lemma missing_credential_is_found_after_io :
  present (getApiKey Examples.keyless_world) = false
  /\ analyzeFootballMatch Reference.platform Examples.keyless_world
       (LinkInput Examples.url_watch web_mode)
     = ([EvFetch (oembed_endpoint
                    (js "https%3A%2F%2Fwww.youtube.com%2Fwatch%3Fv%3DABC123"))],
        Rejected MissingCredential)
  /\ hd_error (trace (analyzeFootballMatch Reference.platform
                        Examples.keyless_world (FileInput Examples.a_file)))
     = Some (EvCreateObjectURL Examples.a_file)
  /\ outcome (analyzeFootballMatch Reference.platform
                Examples.keyless_world (FileInput Examples.a_file))
     = Rejected MissingCredential
  /\ analyzeFootballMatch Reference.platform Examples.keyless_world
       (LinkInput (js "not a link") web_mode)
     = ([], Rejected InvalidLink).
Proof. repeat split; vm_compute; reflexivity. Qed.

(* ================================================================== *)
(** ** The identifier extractor (C5, C10) *)

Lemma split_without_separator sep w :
  ~ In sep w -> split sep w = [w].
Proof.
  induction w as [|c w IH]; intro H; simpl; [reflexivity|].
  destruct (N.eqb c sep) eqn:E.
  - apply N.eqb_eq in E. subst. exfalso. apply H. left. reflexivity.
  - rewrite IH; [reflexivity|]. intro Hin. apply H. right. exact Hin.
Qed.

Lemma split_at_separator sep w rest :
  ~ In sep w -> split sep (w ++ sep :: rest) = w :: split sep rest.
Proof.
  induction w as [|c w IH]; intro H; simpl.
  - rewrite N.eqb_refl. reflexivity.
  - destruct (N.eqb c sep) eqn:E.
    + apply N.eqb_eq in E. subst. exfalso. apply H. left. reflexivity.
    + rewrite IH; [reflexivity|]. intro Hin. apply H. right. exact Hin.
Qed.

Lemma path_segments_slash p : path_segments (SLASH :: p) = path_segments p.
Proof. reflexivity. Qed.

(** A segment at the head of a path is the first of its segments. *)
Lemma path_segments_segment id rest :
  segment id -> segment_end rest ->
  path_segments (id ++ rest) = id :: path_segments rest.
Proof.
  intros [Hne Hno] [-> | [r ->]]; unfold path_segments, filter_Boolean.
  - rewrite app_nil_r, split_without_separator by exact Hno.
    simpl. destruct id; [contradiction|]. reflexivity.
  - rewrite split_at_separator by exact Hno.
    simpl. destruct id; [contradiction|]. reflexivity.
Qed.

Lemma at_index_0 A (x : A) l : at_index (x :: l) 0 = Some x.
Proof. reflexivity. Qed.

Lemma at_index_1 A (x y : A) l : at_index (x :: y :: l) 1 = Some y.
Proof. reflexivity. Qed.

Lemma findIndex_lower A (p : A -> bool) l : -1 <= findIndex p l.
Proof.
  induction l as [|x l IH]; simpl; [lia|].
  destruct (p x); [lia|].
  destruct (findIndex p l <? 0) eqn:E; [lia|].
  apply Z.ltb_ge in E. lia.
Qed.

Lemma findIndex_upper A (p : A -> bool) l : findIndex p l < Z.of_nat (length l).
Proof.
  induction l as [|x l IH]; simpl length; simpl findIndex; [lia|].
  destruct (p x); [lia|].
  destruct (findIndex p l <? 0); lia.
Qed.

Lemma findIndex_app_found A (p : A -> bool) pre l :
  existsb p pre = true -> findIndex p (pre ++ l) = findIndex p pre.
Proof.
  induction pre as [|x pre IH]; simpl; [discriminate|].
  destruct (p x); [reflexivity|]. simpl. intro H. rewrite IH by exact H.
  reflexivity.
Qed.

Lemma findIndex_app_first A (p : A -> bool) pre x l :
  existsb p pre = false -> p x = true ->
  findIndex p (pre ++ x :: l) = Z.of_nat (length pre).
Proof.
  intros Hpre Hx. induction pre as [|y pre IH]; simpl app.
  - simpl. rewrite Hx. reflexivity.
  - simpl in Hpre. apply orb_false_iff in Hpre as [Hy Hpre].
    cbn [findIndex]. rewrite Hy, (IH Hpre).
    destruct (Z.of_nat (length pre) <? 0) eqn:L.
    + apply Z.ltb_lt in L. lia.
    + cbn [length]. lia.
Qed.

(** When [findIndex] answers a position, the element there and its
    successor, if any, split the array. *)
Lemma findIndex_successor (k : jsstring) parts x :
  0 <= array_indexOf parts k ->
  at_index parts (array_indexOf parts k + 1) = Some x ->
  followed k parts.
Proof.
  unfold array_indexOf, followed.
  induction parts as [|y parts IH]; simpl.
  - intros H. lia.
  - destruct (eqb y k) eqn:E.
    + intros _ H. apply eqb_eq in E. subst y.
      destruct parts as [|z parts]; [discriminate H|].
      rewrite at_index_1 in H. inversion H; subst.
      exists [], x, parts. reflexivity.
    + pose proof (findIndex_lower _ (fun x0 => eqb x0 k) parts) as Hl.
      destruct (findIndex (fun x0 => eqb x0 k) parts <? 0) eqn:L.
      * intros H. lia.
      * apply Z.ltb_ge in L. intros _ H.
        unfold at_index in H.
        destruct (findIndex (fun x0 => eqb x0 k) parts + 1 + 1 <? 0) eqn:L2;
          [discriminate H|].
        replace (Z.to_nat (findIndex (fun x0 => eqb x0 k) parts + 1 + 1))
          with (S (Z.to_nat (findIndex (fun x0 => eqb x0 k) parts + 1)))
          in H by lia.
        simpl in H.
        destruct IH as (a & x' & b & ->); [exact L| |].
        -- unfold at_index.
           destruct (findIndex (fun x0 => eqb x0 k) parts + 1 <? 0) eqn:L3;
             [apply Z.ltb_lt in L3; lia | exact H].
        -- exists (y :: a), x', b. reflexivity.
Qed.

(** Without a followed [k], the test on [k] of [extractYouTubeId] fails. *)
Lemma unfollowed_test (k : jsstring) parts :
  ~ followed k parts ->
  (0 <=? array_indexOf parts k)
  && present (at_index parts (array_indexOf parts k + 1)) = false.
Proof.
  intro H.
  destruct (0 <=? array_indexOf parts k) eqn:E; [|reflexivity].
  apply Z.leb_le in E. simpl.
  destruct (present (at_index parts (array_indexOf parts k + 1))) eqn:Pr;
    [|reflexivity].
  apply present_inv in Pr as (c & s & Pr).
  exfalso. apply H. exact (findIndex_successor k parts (c :: s) E Pr).
Qed.

Lemma followed_cons k y parts :
  y <> k -> followed k (y :: parts) -> followed k parts.
Proof.
  intros N ([|z a] & x & b & E); simpl in E; inversion E; subst.
  - contradiction.
  - exists a, x, b. reflexivity.
Qed.

Section Extractor.

Variable P : Platform.
Variables (url : jsstring) (u : URL).
Hypothesis parsed : URL_parse P url = Some u.

Lemma extract_v id : has_v u id -> extractYouTubeId P url = Some id.
Proof.
  intros [Hv Hne]. unfold extractYouTubeId. rewrite parsed, Hv.
  rewrite (present_Some id Hne). reflexivity.
Qed.

Lemma extract_short id rest :
  no_v u -> short_host u ->
  pathname u = SLASH :: id ++ rest -> segment id -> segment_end rest ->
  extractYouTubeId P url = Some id.
Proof.
  intros Hv Hh Hp Hs He. unfold extractYouTubeId.
  unfold no_v in Hv. unfold short_host in Hh.
  rewrite parsed, Hv, Hh, Hp.
  rewrite path_segments_slash, (path_segments_segment id rest Hs He).
  rewrite at_index_0. destruct Hs as [Hne _].
  destruct id; [contradiction|]. reflexivity.
Qed.

Lemma extract_shorts id rest :
  no_v u -> ~ short_host u ->
  pathname u = js "/shorts/" ++ id ++ rest -> segment id -> segment_end rest ->
  extractYouTubeId P url = Some id.
Proof.
  intros Hv Hh Hp Hs He. unfold extractYouTubeId.
  unfold no_v in Hv. unfold short_host in Hh.
  apply not_true_is_false in Hh.
  rewrite parsed, Hv, Hh, Hp.
  change (js "/shorts/" ++ id ++ rest)
    with (SLASH :: js "shorts" ++ SLASH :: id ++ rest).
  rewrite path_segments_slash.
  rewrite (path_segments_segment (js "shorts") (SLASH :: id ++ rest))
    by first [ split; [discriminate | vm_compute; intuition discriminate]
             | right; eexists; reflexivity ].
  rewrite path_segments_slash, (path_segments_segment id rest Hs He).
  change (array_indexOf (js "shorts" :: id :: path_segments rest) (js "shorts"))
    with 0.
  rewrite at_index_1. destruct Hs as [Hne _].
  rewrite (present_Some id Hne). reflexivity.
Qed.

Lemma extract_embed id rest :
  no_v u -> ~ short_host u ->
  pathname u = js "/embed/" ++ id ++ rest -> segment id -> segment_end rest ->
  ~ followed (js "shorts") (id :: path_segments rest) ->
  extractYouTubeId P url = Some id.
Proof.
  intros Hv Hh Hp Hs He Hf. unfold extractYouTubeId.
  unfold no_v in Hv. unfold short_host in Hh.
  apply not_true_is_false in Hh.
  rewrite parsed, Hv, Hh, Hp.
  change (js "/embed/" ++ id ++ rest)
    with (SLASH :: js "embed" ++ SLASH :: id ++ rest).
  rewrite path_segments_slash.
  rewrite (path_segments_segment (js "embed") (SLASH :: id ++ rest))
    by first [ split; [discriminate | vm_compute; intuition discriminate]
             | right; eexists; reflexivity ].
  rewrite path_segments_slash, (path_segments_segment id rest Hs He).
  rewrite unfollowed_test.
  - change (array_indexOf (js "embed" :: id :: path_segments rest) (js "embed"))
      with 0.
    rewrite at_index_1. destruct Hs as [Hne _].
    rewrite (present_Some id Hne). reflexivity.
  - intro F. apply Hf. apply (followed_cons _ (js "embed")); [|exact F].
    vm_compute; discriminate.
Qed.

Lemma extract_none :
  no_v u ->
  (short_host u -> path_segments (pathname u) = []) ->
  (~ short_host u ->
   ~ followed (js "shorts") (path_segments (pathname u))
   /\ ~ followed (js "embed") (path_segments (pathname u))) ->
  extractYouTubeId P url = None.
Proof.
  intros Hv Hshort Hlong. unfold extractYouTubeId.
  unfold no_v in Hv. unfold short_host in *.
  rewrite parsed, Hv.
  destruct (endsWith (hostname u) (js "youtu.be")).
  - rewrite Hshort by reflexivity. reflexivity.
  - destruct Hlong as [Hs He]; [discriminate|].
    rewrite (unfollowed_test _ _ Hs), (unfollowed_test _ _ He). reflexivity.
Qed.

End Extractor.

(** *** The four spellings on the reference platform *)

Lemma break_absent sep s :
  ~ In sep s -> Reference.break sep s = (s, None).
Proof.
  induction s as [|c s IH]; intro H; simpl; [reflexivity|].
  destruct (N.eqb c sep) eqn:E.
  - apply N.eqb_eq in E. subst. exfalso. apply H. left. reflexivity.
  - rewrite IH by (intro Hin; apply H; right; exact Hin). reflexivity.
Qed.

Lemma id_unit_not sep id :
  id_unit sep = false -> forallb id_unit id = true -> ~ In sep id.
Proof.
  intros Hsep Hid Hin.
  rewrite forallb_forall in Hid. rewrite (Hid sep Hin) in Hsep.
  discriminate Hsep.
Qed.

Lemma id_unit_path_unit c : id_unit c = true -> Reference.path_unit c = true.
Proof.
  unfold id_unit, Reference.path_unit. intro H.
  apply orb_true_iff in H as [H|H]; [apply orb_true_iff in H as [H|H]|];
    rewrite H; rewrite ?orb_true_r; reflexivity.
Qed.

Lemma id_unit_query_unit c : id_unit c = true -> Reference.query_unit c = true.
Proof.
  unfold id_unit, Reference.query_unit. intro H.
  apply orb_true_iff in H as [H|H]; [apply orb_true_iff in H as [H|H]|];
    rewrite H; rewrite ?orb_true_r; reflexivity.
Qed.

Lemma forallb_id_units (p : codeunit -> bool) id :
  (forall c, id_unit c = true -> p c = true) ->
  forallb id_unit id = true -> forallb p id = true.
Proof.
  intros Hp H. rewrite forallb_forall in *. intros c Hin. auto.
Qed.

(** A separator that is no identifier unit occurs in a text that ends
    with an identifier only where it occurs in what precedes. *)
Ltac absent_in_spelling Hid :=
  let Hin := fresh "Hin" in
  intro Hin; apply in_app_or in Hin as [Hin|Hin];
  [ vm_compute in Hin; intuition discriminate
  | revert Hin; apply id_unit_not; [reflexivity | exact Hid] ].

Lemma ref_parse_watch id :
  forallb id_unit id = true ->
  Reference.ref_URL_parse (js "https://www.youtube.com/watch?v=" ++ id)
  = Some (mkURL (js "www.youtube.com") (js "/watch") [(js "v", id)]).
Proof.
  intro Hid. unfold Reference.ref_URL_parse.
  change (Reference.strip_scheme (js "https://www.youtube.com/watch?v=" ++ id))
    with (Some (js "www.youtube.com/watch?v=" ++ id)).
  cbv iota beta.
  rewrite break_absent by absent_in_spelling Hid.
  change (Reference.break 63%N (js "www.youtube.com/watch?v=" ++ id))
    with (js "www.youtube.com/watch", Some (js "v=" ++ id)).
  cbv iota beta.
  change (Reference.break SLASH (js "www.youtube.com/watch"))
    with (js "www.youtube.com", Some (js "watch")).
  cbv iota beta zeta.
  change (Reference.valid_host (js "www.youtube.com")) with true.
  change (forallb Reference.path_unit (SLASH :: js "watch")) with true.
  rewrite forallb_app.
  rewrite (forallb_id_units _ id id_unit_query_unit Hid).
  change (forallb Reference.query_unit (js "v=")) with true.
  cbn [andb forallb].
  unfold Reference.parse_query.
  rewrite split_without_separator by absent_in_spelling Hid.
  reflexivity.
Qed.

Lemma ref_parse_path host prefix id :
  Reference.valid_host host = true ->
  ~ In 35%N host -> ~ In 63%N host -> ~ In SLASH host ->
  forallb Reference.path_unit (SLASH :: prefix) = true ->
  ~ In 35%N prefix -> ~ In 63%N prefix ->
  forallb id_unit id = true ->
  Reference.ref_URL_parse (js "https://" ++ host ++ SLASH :: prefix ++ id)
  = Some (mkURL host (SLASH :: prefix ++ id) []).
Proof.
  intros Hhost H35 H63 H47 Hprefix P35 P63 Hid.
  unfold Reference.ref_URL_parse.
  change (Reference.strip_scheme (js "https://" ++ host ++ SLASH :: prefix ++ id))
    with (Some (host ++ SLASH :: prefix ++ id)).
  cbv iota beta.
  assert (Hsep : forall sep, id_unit sep = false -> sep <> SLASH ->
                             ~ In sep host -> ~ In sep prefix ->
                             ~ In sep (host ++ SLASH :: prefix ++ id)).
  { intros sep Hs Hne Hh Hp Hin.
    apply in_app_or in Hin as [Hin|[Hin|Hin]]; [auto | congruence |].
    apply in_app_or in Hin as [Hin|Hin]; [auto|].
    exact (id_unit_not sep id Hs Hid Hin). }
  rewrite break_absent by (apply Hsep; [reflexivity | discriminate | assumption..]).
  cbv iota beta.
  rewrite break_absent by (apply Hsep; [reflexivity | discriminate | assumption..]).
  cbv iota beta.
  assert (Hb : Reference.break SLASH (host ++ SLASH :: prefix ++ id)
               = (host, Some (prefix ++ id))).
  { clear - H47. induction host as [|c host IH]; simpl.
    - reflexivity.
    - destruct (N.eqb c SLASH) eqn:E.
      + apply N.eqb_eq in E. subst. exfalso. apply H47. left. reflexivity.
      + rewrite IH by (intro Hin; apply H47; right; exact Hin). reflexivity. }
  rewrite Hb. cbv iota beta zeta.
  rewrite Hhost.
  change (SLASH :: prefix ++ id) with ((SLASH :: prefix) ++ id).
  rewrite forallb_app, Hprefix.
  rewrite (forallb_id_units _ id id_unit_path_unit Hid).
  reflexivity.
Qed.

(** On the reference platform the four spellings of a video give the same
    identifier, whatever the identifier is. *)
Lemma four_spellings_one_identifier id :
  id <> [] -> forallb id_unit id = true ->
  extractYouTubeId Reference.platform (js "https://www.youtube.com/watch?v=" ++ id)
  = Some id
  /\ extractYouTubeId Reference.platform (js "https://youtu.be/" ++ id) = Some id
  /\ extractYouTubeId Reference.platform (js "https://www.youtube.com/shorts/" ++ id)
     = Some id
  /\ extractYouTubeId Reference.platform (js "https://www.youtube.com/embed/" ++ id)
     = Some id.
Proof.
  intros Hne Hid.
  assert (Hseg : segment id).
  { split; [exact Hne|]. apply id_unit_not; [reflexivity | exact Hid]. }
  split; [|split; [|split]].
  - apply (extract_v Reference.platform _ _ (ref_parse_watch id Hid)).
    split; [reflexivity | exact Hne].
  - apply (extract_short Reference.platform _ _
             (ref_parse_path (js "youtu.be") [] id eq_refl
                ltac:(vm_compute; intuition discriminate)
                ltac:(vm_compute; intuition discriminate)
                ltac:(vm_compute; intuition discriminate)
                eq_refl ltac:(intros []) ltac:(intros []) Hid)
             id []).
    + reflexivity.
    + reflexivity.
    + simpl. rewrite app_nil_r. reflexivity.
    + exact Hseg.
    + left; reflexivity.
  - apply (extract_shorts Reference.platform _ _
             (ref_parse_path (js "www.youtube.com") (js "shorts/") id eq_refl
                ltac:(vm_compute; intuition discriminate)
                ltac:(vm_compute; intuition discriminate)
                ltac:(vm_compute; intuition discriminate)
                eq_refl
                ltac:(vm_compute; intuition discriminate)
                ltac:(vm_compute; intuition discriminate) Hid)
             id []).
    + reflexivity.
    + vm_compute; discriminate.
    + simpl. rewrite app_nil_r. reflexivity.
    + exact Hseg.
    + left; reflexivity.
  - apply (extract_embed Reference.platform _ _
             (ref_parse_path (js "www.youtube.com") (js "embed/") id eq_refl
                ltac:(vm_compute; intuition discriminate)
                ltac:(vm_compute; intuition discriminate)
                ltac:(vm_compute; intuition discriminate)
                eq_refl
                ltac:(vm_compute; intuition discriminate)
                ltac:(vm_compute; intuition discriminate) Hid)
             id []).
    + reflexivity.
    + vm_compute; discriminate.
    + simpl. rewrite app_nil_r. reflexivity.
    + exact Hseg.
    + left; reflexivity.
    + intros ([|y [|z a]] & x & b & E); discriminate E.
Qed.

(** *** The path segments of any path *)

Lemma split_is_not_empty sep s : split sep s <> [].
Proof.
  destruct s as [|c s]; simpl; [discriminate|].
  destruct (N.eqb c sep); [discriminate|].
  destruct (split sep s); discriminate.
Qed.

(** Splitting distributes over a separator. *)
Lemma split_app_separator sep p q :
  split sep (p ++ sep :: q) = split sep p ++ split sep q.
Proof.
  induction p as [|c p IH]; simpl.
  - rewrite N.eqb_refl. reflexivity.
  - rewrite IH. destruct (N.eqb c sep); [reflexivity|].
    pose proof (split_is_not_empty sep p) as Hne.
    destruct (split sep p) as [|w ws]; [contradiction|]. reflexivity.
Qed.

Lemma path_segments_app p q :
  path_segments (p ++ SLASH :: q) = path_segments p ++ path_segments q.
Proof.
  unfold path_segments, filter_Boolean.
  rewrite split_app_separator. apply filter_app.
Qed.

Lemma path_segments_slashes n p :
  path_segments (repeat SLASH n ++ p) = path_segments p.
Proof.
  induction n as [|n IH]; simpl; [reflexivity|].
  rewrite path_segments_slash. exact IH.
Qed.

Lemma path_segments_only_slashes p :
  forallb (N.eqb SLASH) p = true -> path_segments p = [].
Proof.
  induction p as [|c p IH]; [reflexivity|].
  cbn [forallb]. intro H. apply andb_true_iff in H as [Hc Hp].
  apply N.eqb_eq in Hc. subst c. rewrite path_segments_slash. exact (IH Hp).
Qed.

Lemma path_segments_not_empty p id :
  In id (path_segments p) -> id <> [].
Proof.
  unfold path_segments, filter_Boolean. intro H.
  apply filter_In in H as [_ H]. apply nonempty_true. exact H.
Qed.

(** Every path is a run of slashes, or a run of slashes, a segment and
    what follows the segment. *)
Lemma every_path_has_a_shape p :
  forallb (N.eqb SLASH) p = true
  \/ exists n id rest,
      p = repeat SLASH n ++ id ++ rest /\ segment id /\ segment_end rest.
Proof.
  assert (Hrun : forall q, exists id rest,
               q = id ++ rest /\ ~ In SLASH id /\ segment_end rest).
  { induction q as [|c q (id & rest & -> & Hno & He)].
    - exists [], []. repeat split; [intros [] | left; reflexivity].
    - destruct (N.eqb c SLASH) eqn:E.
      + apply N.eqb_eq in E. subst c. exists [], (SLASH :: id ++ rest).
        repeat split; [intros [] | right; eexists; reflexivity].
      + exists (c :: id), rest. repeat split; [|exact He].
        intros [Hc|Hin]; [|exact (Hno Hin)].
        subst c. rewrite N.eqb_refl in E. discriminate E. }
  induction p as [|c p IH]; [left; reflexivity|].
  destruct (N.eqb SLASH c) eqn:E.
  - apply N.eqb_eq in E. subst c. destruct IH as [IH|(n & id & rest & -> & Hs & He)].
    + left. cbn [forallb]. rewrite N.eqb_refl. exact IH.
    + right. exists (S n), id, rest. repeat split; assumption || apply Hs.
  - right. destruct (Hrun p) as (id & rest & -> & Hno & He).
    exists 0%nat, (c :: id), rest. simpl. repeat split; [discriminate| |exact He].
    intros [Hc|Hin]; [|exact (Hno Hin)].
    subst c. rewrite N.eqb_refl in E. discriminate E.
Qed.

Lemma v_is_present_or_not u : (exists id, has_v u id) \/ no_v u.
Proof.
  unfold has_v, no_v.
  destruct (searchParams_get (searchParams u) (js "v")) as [[|c s]|].
  - right; reflexivity.
  - left. exists (c :: s). split; [reflexivity | discriminate].
  - right; reflexivity.
Qed.

(** A followed segment has a first followed occurrence. *)
Lemma followed_first k parts :
  followed k parts ->
  exists a x b, parts = a ++ k :: x :: b /\ ~ In k a.
Proof.
  induction parts as [|y parts IH]; intros (a & x & b & E).
  - destruct a; discriminate E.
  - destruct (list_eq_dec N.eq_dec y k) as [->|Hne].
    + destruct parts as [|z parts].
      * destruct a as [|? [|? ?]]; discriminate E.
      * exists [], z, parts. split; [reflexivity | intros []].
    + destruct a as [|y' a]; simpl in E; inversion E; subst; [contradiction|].
      destruct IH as (a' & x' & b' & -> & Hno); [exists a, x, b; reflexivity|].
      exists (y' :: a'), x', b'. split; [reflexivity|].
      intros [Hin|Hin]; [exact (Hne Hin) | exact (Hno Hin)].
Qed.

Lemma array_indexOf_first a k rest :
  ~ In k a -> array_indexOf (a ++ k :: rest) k = Z.of_nat (length a).
Proof.
  intro H. unfold array_indexOf. apply findIndex_app_first.
  - apply not_true_is_false. intro E.
    apply existsb_exists in E as (x & Hin & E). apply eqb_eq in E. subst x.
    exact (H Hin).
  - apply eqb_refl.
Qed.

Lemma at_index_after A (a : list A) k x b :
  at_index (a ++ k :: x :: b) (Z.of_nat (length a) + 1) = Some x.
Proof.
  unfold at_index.
  destruct (Z.of_nat (length a) + 1 <? 0) eqn:L; [apply Z.ltb_lt in L; lia|].
  replace (Z.to_nat (Z.of_nat (length a) + 1)) with (length a + 1)%nat by lia.
  rewrite nth_error_app2 by lia.
  replace (length a + 1 - length a)%nat with 1%nat by lia. reflexivity.
Qed.

(** The segment that follows the first occurrence of [k] passes the test
    of [extractYouTubeId] on [k]. *)
Lemma followed_test (k : jsstring) (parts a : list jsstring) (id : jsstring) b :
  parts = a ++ k :: id :: b -> ~ In k a -> id <> [] ->
  (0 <=? array_indexOf parts k)
  && present (at_index parts (array_indexOf parts k + 1)) = true
  /\ at_index parts (array_indexOf parts k + 1) = Some id.
Proof.
  intros -> Hno Hne.
  pose proof (array_indexOf_first a k (id :: b) Hno) as E.
  pose proof (at_index_after _ a k id b) as E'.
  pose proof (present_Some id Hne) as E''.
  unfold jsstring in *. rewrite E, E', E'', andb_true_r.
  split; [|reflexivity].
  apply Z.leb_le. lia.
Qed.

Section ExtractorCases.

Variable P : Platform.
Variables (url : jsstring) (u : URL).
Hypothesis parsed : URL_parse P url = Some u.
Hypothesis without_v : no_v u.

Lemma extract_first_segment n id rest :
  short_host u ->
  pathname u = repeat SLASH n ++ id ++ rest -> segment id -> segment_end rest ->
  extractYouTubeId P url = Some id.
Proof.
  intros Hh Hp Hs He. unfold extractYouTubeId.
  unfold no_v in without_v. unfold short_host in Hh.
  rewrite parsed, without_v, Hh, Hp.
  rewrite path_segments_slashes, (path_segments_segment id rest Hs He).
  rewrite at_index_0. destruct Hs as [Hne _].
  destruct id; [contradiction|]. reflexivity.
Qed.

Lemma extract_no_segment :
  short_host u -> path_segments (pathname u) = [] ->
  extractYouTubeId P url = None.
Proof.
  intros Hh Hp. unfold extractYouTubeId.
  unfold no_v in without_v. unfold short_host in Hh.
  rewrite parsed, without_v, Hh, Hp. reflexivity.
Qed.

Lemma extract_after_shorts a id b :
  ~ short_host u ->
  path_segments (pathname u) = a ++ js "shorts" :: id :: b ->
  ~ In (js "shorts") a ->
  extractYouTubeId P url = Some id.
Proof.
  intros Hh Hp Hno. unfold extractYouTubeId.
  unfold no_v in without_v. unfold short_host in Hh.
  apply not_true_is_false in Hh. rewrite parsed, without_v, Hh.
  assert (Hne : id <> []).
  { apply (path_segments_not_empty (pathname u)). rewrite Hp.
    apply in_or_app. right. right. left. reflexivity. }
  destruct (followed_test (js "shorts") _ a id b Hp Hno Hne) as [-> ->].
  reflexivity.
Qed.

Lemma extract_after_embed a id b :
  ~ short_host u ->
  ~ followed (js "shorts") (path_segments (pathname u)) ->
  path_segments (pathname u) = a ++ js "embed" :: id :: b ->
  ~ In (js "embed") a ->
  extractYouTubeId P url = Some id.
Proof.
  intros Hh Hf Hp Hno. unfold extractYouTubeId.
  unfold no_v in without_v. unfold short_host in Hh.
  apply not_true_is_false in Hh. rewrite parsed, without_v, Hh.
  rewrite (unfollowed_test _ _ Hf).
  assert (Hne : id <> []).
  { apply (path_segments_not_empty (pathname u)). rewrite Hp.
    apply in_or_app. right. right. left. reflexivity. }
  destruct (followed_test (js "embed") _ a id b Hp Hno Hne) as [-> ->].
  reflexivity.
Qed.

(** The segments of a path that holds [/k/<id>] after [pre]. *)
Lemma path_segments_shape pre k n id rest :
  segment k -> segment id -> segment_end rest ->
  path_segments (pre ++ SLASH :: k ++ repeat SLASH (S n) ++ id ++ rest)
  = path_segments pre ++ k :: id :: path_segments rest.
Proof.
  intros Hk Hs He. rewrite path_segments_app. f_equal.
  rewrite (path_segments_segment k) by
    first [ exact Hk | right; eexists; reflexivity ].
  f_equal. rewrite path_segments_slashes.
  apply path_segments_segment; assumption.
Qed.

End ExtractorCases.

(** C5, as the code has it.  [extractYouTubeId] never throws: it answers
    "no identifier" for a link that does not parse, and on a parsed link it
    decides in a fixed order.  First, a non-empty first [v] parameter is
    returned, on any host.  Without it, on a host whose name ends with
    [youtu.be], the first non-empty segment of the path is returned, however
    many slashes precede it, and a path without segment gives "no
    identifier".  Without it and on any other host, the segment that
    follows the first segment [shorts] is returned, wherever in the path
    that is; if no segment [shorts] is followed by another, the same holds
    for [embed]; and if neither is followed by a segment the answer is "no
    identifier".  The segments are the non-empty pieces of the path between
    slashes, so that [/shorts/<id>] and [/embed/<id>] at any place of the
    path are such shapes.  No parsed link is left out: the first [v]
    parameter is non-empty or it is not, a path is a run of slashes or has a
    first segment, and a segment that is followed has a first followed
    occurrence. *)
Theorem extractor_shapes_in_order :
  forall (P : Platform) (url : jsstring),
    (URL_parse P url = None -> extractYouTubeId P url = None)
    /\ forall u, URL_parse P url = Some u ->
         let parts := path_segments (pathname u) in
         (forall id, has_v u id -> extractYouTubeId P url = Some id)
         /\ (no_v u -> short_host u ->
             (forall n id rest,
                 pathname u = repeat SLASH n ++ id ++ rest ->
                 segment id -> segment_end rest ->
                 extractYouTubeId P url = Some id)
             /\ (forallb (N.eqb SLASH) (pathname u) = true ->
                 extractYouTubeId P url = None))
         /\ (no_v u -> ~ short_host u ->
             (forall a id b,
                 parts = a ++ js "shorts" :: id :: b -> ~ In (js "shorts") a ->
                 extractYouTubeId P url = Some id)
             /\ (forall pre n id rest,
                    pathname u
                    = pre ++ js "/shorts" ++ repeat SLASH (S n) ++ id ++ rest ->
                    ~ In (js "shorts") (path_segments pre) ->
                    segment id -> segment_end rest ->
                    extractYouTubeId P url = Some id)
             /\ (~ followed (js "shorts") parts ->
                 (forall a id b,
                     parts = a ++ js "embed" :: id :: b -> ~ In (js "embed") a ->
                     extractYouTubeId P url = Some id)
                 /\ (forall pre n id rest,
                        pathname u
                        = pre ++ js "/embed" ++ repeat SLASH (S n) ++ id ++ rest ->
                        ~ In (js "embed") (path_segments pre) ->
                        segment id -> segment_end rest ->
                        extractYouTubeId P url = Some id)
                 /\ (~ followed (js "embed") parts ->
                     extractYouTubeId P url = None)))
         /\ (((exists id, has_v u id) \/ no_v u)
             /\ (forallb (N.eqb SLASH) (pathname u) = true
                 \/ exists n id rest,
                     pathname u = repeat SLASH n ++ id ++ rest
                     /\ segment id /\ segment_end rest)
             /\ (forall k, followed k parts ->
                           exists a id b,
                             parts = a ++ k :: id :: b /\ ~ In k a)).
Proof.
  intros P url. split.
  - intro H. unfold extractYouTubeId. rewrite H. reflexivity.
  - intros u parsed parts. subst parts.
    refine (conj (extract_v P url u parsed) (conj _ (conj _ _)));
      [| |exact (conj (v_is_present_or_not u)
                      (conj (every_path_has_a_shape (pathname u))
                            (fun k => followed_first k _)))].
    + intros Hv Hh.
      refine (conj (fun n id rest =>
                      extract_first_segment P url u parsed Hv n id rest Hh) _).
      intro Hall. apply (extract_no_segment P url u parsed Hv Hh).
      apply path_segments_only_slashes. exact Hall.
    + intros Hv Hh.
      refine (conj (fun a id b =>
                      extract_after_shorts P url u parsed Hv a id b Hh)
                   (conj _ _)).
      * intros pre n id rest Hp Hno Hs He.
        apply (extract_after_shorts P url u parsed Hv (path_segments pre) id
                 (path_segments rest) Hh); [|exact Hno].
        rewrite Hp.
        apply (path_segments_shape pre (js "shorts") n id rest);
          [split; [discriminate | vm_compute; intuition discriminate]
          | exact Hs | exact He].
      * intro Hf.
        refine (conj (fun a id b =>
                        extract_after_embed P url u parsed Hv a id b Hh Hf)
                     (conj _ _)).
        -- intros pre n id rest Hp Hno Hs He.
           apply (extract_after_embed P url u parsed Hv (path_segments pre) id
                    (path_segments rest) Hh Hf); [|exact Hno].
           rewrite Hp.
           apply (path_segments_shape pre (js "embed") n id rest);
             [split; [discriminate | vm_compute; intuition discriminate]
             | exact Hs | exact He].
        -- intro He. apply (extract_none P url u parsed Hv).
           ++ intro Hh'. contradiction.
           ++ intros _. split; assumption.
Qed.

Lemma singleton_unfollowed k (x : jsstring) : ~ followed k [x].
Proof.
  intros ([|y [|z a]] & x' & b & E); discriminate E.
Qed.

Lemma triple_unfollowed k (x y z : jsstring) :
  x <> k -> y <> k -> ~ followed k [x; y; z].
Proof.
  intros Hx Hy ([|c [|c' [|c'' [|c3 a]]]] & x' & b & E); inversion E; subst;
    contradiction.
Qed.

(** The same identifier in the four shapes, with doubled slashes and with
    the shape deeper in the path; a host that only ends with [youtu.be];
    and links of no shape. *)
Lemma extractor_shapes_in_order_witness :
  extractYouTubeId Reference.platform (js "https://www.youtube.com/watch?v=abc123")
  = Some (js "abc123")
  /\ extractYouTubeId Reference.platform (js "https://youtu.be//abc123")
     = Some (js "abc123")
  /\ extractYouTubeId Reference.platform (js "https://www.youtube.com/shorts//abc123")
     = Some (js "abc123")
  /\ extractYouTubeId Reference.platform (js "https://www.youtube.com/x/embed/abc123")
     = Some (js "abc123")
  /\ extractYouTubeId Reference.platform (js "https://notyoutu.be/abc123")
     = Some (js "abc123")
  /\ extractYouTubeId Reference.platform (js "https://youtu.be//") = None
  /\ extractYouTubeId Reference.platform (js "https://www.youtube.com/embed")
     = None
  /\ extractYouTubeId Reference.platform (js "abc123") = None.
Proof.
  split.
  { refine (proj1 (proj2 (extractor_shapes_in_order Reference.platform _) _ _)
                  (js "abc123") _).
    - vm_compute; reflexivity.
    - split; [vm_compute; reflexivity | discriminate]. }
  split.
  { refine (proj1 (proj1 (proj2 (proj2 (extractor_shapes_in_order
                                          Reference.platform _) _ _)) _ _)
                  2%nat (js "abc123") [] _ _ _).
    - vm_compute; reflexivity.
    - vm_compute; reflexivity.
    - vm_compute; reflexivity.
    - vm_compute; reflexivity.
    - split; [discriminate | vm_compute; intuition discriminate].
    - left; reflexivity. }
  split.
  { refine (proj1 (proj2 (proj1 (proj2 (proj2 (proj2
              (extractor_shapes_in_order Reference.platform _) _ _))) _ _))
                  [] 1%nat (js "abc123") [] _ _ _ _).
    - vm_compute; reflexivity.
    - vm_compute; reflexivity.
    - vm_compute; discriminate.
    - vm_compute; reflexivity.
    - intros [].
    - split; [discriminate | vm_compute; intuition discriminate].
    - left; reflexivity. }
  split.
  { refine (proj1 (proj2 (proj2 (proj2 (proj1 (proj2 (proj2 (proj2
              (extractor_shapes_in_order Reference.platform _) _ _))) _ _)) _))
                  (js "/x") 0%nat (js "abc123") [] _ _ _ _).
    - vm_compute; reflexivity.
    - vm_compute; reflexivity.
    - vm_compute; discriminate.
    - apply triple_unfollowed; vm_compute; discriminate.
    - vm_compute; reflexivity.
    - vm_compute; intuition discriminate.
    - split; [discriminate | vm_compute; intuition discriminate].
    - left; reflexivity. }
  split.
  { refine (proj1 (proj1 (proj2 (proj2 (extractor_shapes_in_order
                                          Reference.platform _) _ _)) _ _)
                  1%nat (js "abc123") [] _ _ _).
    - vm_compute; reflexivity.
    - vm_compute; reflexivity.
    - vm_compute; reflexivity.
    - vm_compute; reflexivity.
    - split; [discriminate | vm_compute; intuition discriminate].
    - left; reflexivity. }
  split.
  { refine (proj2 (proj1 (proj2 (proj2 (extractor_shapes_in_order
                                          Reference.platform _) _ _)) _ _) _).
    - vm_compute; reflexivity.
    - vm_compute; reflexivity.
    - vm_compute; reflexivity.
    - vm_compute; reflexivity. }
  split.
  { refine (proj2 (proj2 (proj2 (proj2 (proj1 (proj2 (proj2 (proj2
              (extractor_shapes_in_order Reference.platform _) _ _))) _ _)) _)) _).
    - vm_compute; reflexivity.
    - vm_compute; reflexivity.
    - vm_compute; discriminate.
    - apply singleton_unfollowed.
    - apply singleton_unfollowed. }
  { refine (proj1 (extractor_shapes_in_order Reference.platform _) _).
    vm_compute; reflexivity. }
Defined.

(** C5 fails as it is stated: a link can carry one identifier in the
    shortened shape and another in its [v] parameter, and the extractor
    returns the latter; on the shortened domain [/shorts/<id>] yields the
    segment [shorts]; and after [/embed/shorts/] the next segment wins. *)
Lemma extractor_prefers_v_over_the_short_path :
  (exists u,
      URL_parse Reference.platform (js "https://youtu.be/abc?v=def") = Some u
      /\ short_host u
      /\ pathname u = SLASH :: js "abc" ++ []
      /\ extractYouTubeId Reference.platform (js "https://youtu.be/abc?v=def")
         = Some (js "def"))
  /\ extractYouTubeId Reference.platform (js "https://youtu.be/abc?v=def")
     <> Some (js "abc")
  /\ extractYouTubeId Reference.platform (js "https://youtu.be/shorts/xyz")
     = Some (js "shorts")
  /\ extractYouTubeId Reference.platform
       (js "https://www.youtube.com/embed/shorts/xyz")
     = Some (js "xyz").
Proof.
  split; [eexists; repeat split; vm_compute; reflexivity|].
  split; [vm_compute; discriminate|].
  split; vm_compute; reflexivity.
Qed.

(** C10, as the code has it.  Whenever the link parses and the first [v]
    parameter of its query, the one [searchParams.get] answers, is not
    empty, [extractYouTubeId] returns that value, whatever the host and the
    path are. *)
Theorem v_parameter_takes_precedence :
  forall (P : Platform) (url : jsstring) (u : URL) (v : jsstring),
    URL_parse P url = Some u ->
    searchParams_get (searchParams u) (js "v") = Some v ->
    v <> [] ->
    extractYouTubeId P url = Some v.
Proof.
  intros P url u v parsed Hv Hne.
  exact (extract_v P url u parsed v (conj Hv Hne)).
Qed.

(** The link [https://youtu.be/abc?v=def], and the same query on the other
    path shapes. *)
Lemma v_parameter_takes_precedence_witness :
  extractYouTubeId Reference.platform (js "https://youtu.be/abc?v=def")
  = Some (js "def")
  /\ extractYouTubeId Reference.platform
       (js "https://www.youtube.com/shorts/abc?v=def")
     = Some (js "def")
  /\ extractYouTubeId Reference.platform
       (js "https://www.youtube.com/embed/abc?v=def")
     = Some (js "def").
Proof.
  split; [|split];
    (eapply (v_parameter_takes_precedence Reference.platform);
     [vm_compute; reflexivity | vm_compute; reflexivity | discriminate]).
Defined.

(** C10 fails as it is stated: the query of [https://youtu.be/abc?v=&v=def]
    carries the non-empty [v] parameter [def], but its first [v] parameter
    is empty; the extractor then goes on to the path and returns [abc].  On
    the watch page the same query gives no identifier at all. *)
Lemma later_v_parameter_is_ignored :
  (exists u,
      URL_parse Reference.platform (js "https://youtu.be/abc?v=&v=def") = Some u
      /\ In (js "v", js "def") (searchParams u)
      /\ searchParams_get (searchParams u) (js "v") = Some []
      /\ extractYouTubeId Reference.platform (js "https://youtu.be/abc?v=&v=def")
         = Some (js "abc"))
  /\ extractYouTubeId Reference.platform (js "https://youtu.be/abc?v=&v=def")
     <> Some (js "def")
  /\ (exists u,
         URL_parse Reference.platform (js "https://www.youtube.com/watch?v=&v=def")
         = Some u
         /\ In (js "v", js "def") (searchParams u)
         /\ extractYouTubeId Reference.platform
              (js "https://www.youtube.com/watch?v=&v=def")
            = None).
Proof.
  split; [|split].
  - eexists. split; [vm_compute; reflexivity|].
    split; [right; left; reflexivity|].
    split; vm_compute; reflexivity.
  - vm_compute; discriminate.
  - eexists. split; [vm_compute; reflexivity|].
    split; [right; left; reflexivity|].
    vm_compute; reflexivity.
Qed.

(* ================================================================== *)
(** ** The response parser (C6) *)

Lemma indexOf_absent s c : ~ In c s -> indexOf s c = -1.
Proof.
  induction s as [|x s IH]; intro H; simpl; [reflexivity|].
  destruct (N.eqb x c) eqn:E.
  - apply N.eqb_eq in E. subst. exfalso. apply H. left. reflexivity.
  - rewrite IH by (intro Hin; apply H; right; exact Hin). reflexivity.
Qed.

Lemma lastIndexOf_absent s c : ~ In c s -> lastIndexOf s c = -1.
Proof.
  induction s as [|x s IH]; intro H; simpl; [reflexivity|].
  rewrite IH by (intro Hin; apply H; right; exact Hin). simpl.
  destruct (N.eqb x c) eqn:E; [|reflexivity].
  apply N.eqb_eq in E. subst. exfalso. apply H. left. reflexivity.
Qed.

Lemma indexOf_first pre c rest :
  ~ In c pre -> indexOf (pre ++ c :: rest) c = len pre.
Proof.
  unfold len. induction pre as [|x pre IH]; intro H; simpl app.
  - simpl. rewrite N.eqb_refl. reflexivity.
  - cbn [indexOf].
    destruct (N.eqb x c) eqn:E.
    + apply N.eqb_eq in E. subst. exfalso. apply H. left. reflexivity.
    + rewrite IH by (intro Hin; apply H; right; exact Hin).
      destruct (Z.of_nat (length pre) <? 0) eqn:L.
      * apply Z.ltb_lt in L. lia.
      * cbn [length]. lia.
Qed.

Lemma lastIndexOf_last s c post :
  ~ In c post -> lastIndexOf (s ++ c :: post) c = len s.
Proof.
  unfold len. intro H. induction s as [|x s IH]; simpl app.
  - cbn [lastIndexOf]. rewrite (lastIndexOf_absent post c H).
    simpl. rewrite N.eqb_refl. reflexivity.
  - cbn [lastIndexOf]. rewrite IH.
    destruct (0 <=? Z.of_nat (length s)) eqn:L.
    + cbn [length]. lia.
    + apply Z.leb_gt in L. lia.
Qed.

Lemma substring_middle pre obj post :
  substring (pre ++ obj ++ post) (len pre) (len pre + len obj) = obj.
Proof.
  unfold substring, clamp, len.
  rewrite !length_app.
  replace (Z.to_nat (Z.min (Z.max (Z.of_nat (length pre)) 0)
             (Z.of_nat (length pre + (length obj + length post)))))
    with (length pre) by lia.
  replace (Z.to_nat (Z.min (Z.max (Z.of_nat (length pre) + Z.of_nat (length obj)) 0)
             (Z.of_nat (length pre + (length obj + length post)))))
    with (length pre + length obj)%nat by lia.
  rewrite Nat.min_l, Nat.max_r by lia.
  replace (length pre + length obj - length pre)%nat with (length obj) by lia.
  rewrite skipn_app, skipn_all, Nat.sub_diag. simpl.
  rewrite firstn_app, firstn_all, Nat.sub_diag. simpl.
  apply app_nil_r.
Qed.

(** The text between the first opening and the last closing brace of an
    answer that wraps one object in prose free of those braces. *)
Lemma braces_of_wrapped_object pre mid post :
  ~ In LBRACE pre -> ~ In RBRACE post ->
  let text := pre ++ (LBRACE :: mid ++ [RBRACE]) ++ post in
  indexOf text LBRACE = len pre
  /\ lastIndexOf text RBRACE = len pre + len (LBRACE :: mid ++ [RBRACE]) - 1
  /\ substring text (indexOf text LBRACE) (lastIndexOf text RBRACE + 1)
     = LBRACE :: mid ++ [RBRACE].
Proof.
  intros Hpre Hpost text.
  assert (I : indexOf text LBRACE = len pre).
  { subst text. simpl app. apply indexOf_first. exact Hpre. }
  assert (L : lastIndexOf text RBRACE
              = len pre + len (LBRACE :: mid ++ [RBRACE]) - 1).
  { subst text.
    replace (pre ++ (LBRACE :: mid ++ [RBRACE]) ++ post)
      with ((pre ++ LBRACE :: mid) ++ RBRACE :: post)
      by (simpl; rewrite <- !app_assoc; reflexivity).
    rewrite (lastIndexOf_last _ RBRACE post Hpost).
    unfold len. rewrite !length_app. cbn [length]. rewrite length_app.
    cbn [length]. lia. }
  split; [exact I|]. split; [exact L|].
  rewrite I, L.
  replace (len pre + len (LBRACE :: mid ++ [RBRACE]) - 1 + 1)
    with (len pre + len (LBRACE :: mid ++ [RBRACE])) by lia.
  subst text. apply substring_middle.
Qed.

(** C6, as the code has it.  When an answer wraps one object in prose that
    has no opening brace before it and no closing brace after it,
    [parseJsonResponse] decodes exactly the text of that object.  An answer
    without an opening or without a closing brace, an answer whose text
    from the first opening to the last closing brace does not decode, and
    an answer without text all yield [null]; nothing is thrown. *)
Theorem parser_takes_first_to_last_brace :
  forall (P : Platform),
    (forall pre mid post v,
        ~ In LBRACE pre -> ~ In RBRACE post ->
        JSON_parse P (LBRACE :: mid ++ [RBRACE]) = Some v ->
        parseJsonResponse P (Some (pre ++ (LBRACE :: mid ++ [RBRACE]) ++ post)) = v)
    /\ (forall text,
           ~ In LBRACE text \/ ~ In RBRACE text ->
           parseJsonResponse P (Some text) = JNull)
    /\ (forall text,
           JSON_parse P (substring text (indexOf text LBRACE)
                                   (lastIndexOf text RBRACE + 1)) = None ->
           parseJsonResponse P (Some text) = JNull)
    /\ parseJsonResponse P None = JNull.
Proof.
  intro P. repeat split.
  - intros pre mid post v Hpre Hpost Hv.
    destruct (braces_of_wrapped_object pre mid post Hpre Hpost) as (I & L & S).
    unfold parseJsonResponse. rewrite S, Hv, I, L.
    destruct (len pre =? -1) eqn:E1.
    { apply Z.eqb_eq in E1. unfold len in E1. lia. }
    destruct (len pre + len (LBRACE :: mid ++ [RBRACE]) - 1 =? -1) eqn:E2.
    { apply Z.eqb_eq in E2. unfold len in E2. cbn [length] in E2. lia. }
    reflexivity.
  - intros text [H | H]; unfold parseJsonResponse.
    + rewrite (indexOf_absent text LBRACE H). reflexivity.
    + rewrite (lastIndexOf_absent text RBRACE H).
      rewrite orb_true_r. reflexivity.
  - intros text H. unfold parseJsonResponse. rewrite H.
    destruct ((indexOf text LBRACE =? -1) || (lastIndexOf text RBRACE =? -1));
      reflexivity.
Qed.

(** An object between two pieces of prose without braces. *)
Lemma parser_takes_first_to_last_brace_witness :
  parseJsonResponse Reference.platform
    (Some (js "Segue a analise: " ++ (LBRACE :: jq "'videoId':'ABC123'" ++ [RBRACE])
           ++ js " Fim."))
  = JObject [(k_videoId, JString (js "ABC123"))].
Proof.
  apply (proj1 (parser_takes_first_to_last_brace Reference.platform)).
  - vm_compute; intuition discriminate.
  - vm_compute; intuition discriminate.
  - vm_compute; reflexivity.
Defined.

(** C6 fails as it is stated: prose with a brace of its own, before or
    after the object, makes the parser return [null] although the object
    itself decodes. *)
Lemma parser_loses_object_in_prose_with_braces :
  Reference.ref_JSON_parse (jq "{'videoId':'ABC123'}")
  = Some (JObject [(k_videoId, JString (js "ABC123"))])
  /\ parseJsonResponse Reference.platform
       (Some (js "use {braces}: " ++ jq "{'videoId':'ABC123'}" ++ js " ok"))
     = JNull
  /\ parseJsonResponse Reference.platform
       (Some (js "ok: " ++ jq "{'videoId':'ABC123'}" ++ js " :-}"))
     = JNull.
Proof. repeat split; vm_compute; reflexivity. Qed.

(* ================================================================== *)
(** ** The file pipeline (C7) *)

(** The file pipeline after the frames are sampled, the credential found
    and the generation call answered with an object: the object comes back
    with the name of the file as its title and an absent link, and its
    other properties, [error] included, are those the model wrote. *)
Lemma file_pipeline_stamps_title :
  forall (P : Platform) (w : World) (file : File) (t : list Event)
         (frames : list (option jsstring)) (key : jsstring)
         (response : GenResponse) (props : list (jsstring * value)),
    extractFramesFromVideo w file 20 = (t, Resolved frames) ->
    getApiKey w = Some key -> key <> [] ->
    generateContent w key (framesRequest frames) = GenResolved response ->
    parseJsonResponse P (text response) = JObject props ->
    exists doc,
      outcome (getAnalysisFromFile P w file) = Resolved doc
      /\ get doc k_videoTitle = JString (name file)
      /\ get doc k_videoUrl = JUndefined
      /\ get doc k_error = get (JObject props) k_error.
Proof.
  intros P w file t frames key response props Hs Hk Hkey Hg Hp.
  exists (JObject (assign k_videoUrl JUndefined
                     (assign k_videoTitle (JString (name file)) props))).
  split.
  - unfold getAnalysisFromFile.
    rewrite (outcome_bind _ _ _ _ _ _ Hs).
    rewrite (outcome_bind _ _ _ _ _ _ (getClient_resolved _ _ Hk Hkey)).
    rewrite (outcome_bind _ _ _ _ _ _
               (models_generateContent_resolved _ _ _ _ Hg)).
    rewrite Hp. reflexivity.
  - split; [|split]; simpl.
    + rewrite lookup_assign_other by (vm_compute; discriminate).
      rewrite lookup_assign_same. reflexivity.
    + rewrite lookup_assign_same. reflexivity.
    + rewrite !lookup_assign_other by (vm_compute; discriminate).
      reflexivity.
Qed.

(** C7, at the failing input.  The model answers the frames of
    [jogo.mp4] with an object that declares an error; the file pipeline
    returns that object, stamped with the file name, instead of raising
    the declared error. *)
Theorem file_pipeline_returns_declared_error :
  outcome (getAnalysisFromFile Reference.platform Examples.declining_world
                               Examples.a_file)
  = Resolved
      (JObject [(k_error, JString (js "Incapaz de identificar a partida."));
                (k_videoTitle, JString (js "jogo.mp4"));
                (k_videoUrl, JUndefined)])
  /\ outcome (getAnalysisFromWeb Reference.platform Examples.declining_world
                                 Examples.url_watch web_mode)
     = Rejected (ModelDeclinedIdentification
                   (JString (js "Incapaz de identificar a partida."))).
Proof. split; vm_compute; reflexivity. Qed.

(* ================================================================== *)
(** ** The frame sampler (C8) *)

(** The capture chain revokes the object URL as its last action when it
    resolves, with one frame for each remaining capture, and never revokes
    it otherwise. *)
Lemma capture_revokes_only_on_success file step remaining :
  forall captured replies frames,
    match outcome (capture file step remaining captured replies frames) with
    | Resolved out =>
        exists t0,
          trace (capture file step remaining captured replies frames)
          = t0 ++ [EvRevokeObjectURL file]
          /\ (forall ev, In ev t0 -> is_revoke ev = false)
          /\ length out = (length frames + remaining)%nat
    | _ =>
        forall ev,
          In ev (trace (capture file step remaining captured replies frames)) ->
          is_revoke ev = false
    end.
Proof.
  induction remaining as [|remaining IH]; intros captured replies frames;
    cbn [capture].
  - rewrite outcome_emit_bind, trace_emit_bind.
    simpl. exists []. repeat split; [intros ev [] | lia].
  - cbv zeta.
    destruct (is_finite (number_mul (number_of_nat captured) step));
      [|intros ev []].
    rewrite outcome_emit_bind, trace_emit_bind.
    destruct replies as [|[dataURL|] replies].
    + simpl. intros ev [<-|[]]. reflexivity.
    + rewrite outcome_emit_bind, trace_emit_bind.
      specialize (IH (S captured) replies
                     (frames ++ [at_index (split COMMA dataURL) 1])).
      destruct (outcome (capture file step remaining (S captured) replies
                           (frames ++ [at_index (split COMMA dataURL) 1])))
        as [out| |].
      * destruct IH as (t0 & -> & Hno & Hlen).
        exists (EvSeek (number_mul (number_of_nat captured) step)
                  :: EvCapture :: t0).
        split; [reflexivity|]. split.
        -- intros ev [<-|[<-|Hin]]; try reflexivity. exact (Hno ev Hin).
        -- rewrite Hlen, length_app. simpl. lia.
      * intros ev [<-|[<-|Hin]]; try reflexivity. exact (IH ev Hin).
      * intros ev [<-|[<-|Hin]]; try reflexivity. exact (IH ev Hin).
    + simpl. intros ev [<-|[]]. reflexivity.
Qed.

(** The sampler releases the object URL exactly when it resolves. *)
Lemma sampler_revokes_only_on_success w file maxFrames :
  match outcome (extractFramesFromVideo w file maxFrames) with
  | Resolved frames =>
      exists t0,
        trace (extractFramesFromVideo w file maxFrames)
        = t0 ++ [EvRevokeObjectURL file]
        /\ (forall ev, In ev t0 -> is_revoke ev = false)
        /\ length frames = maxFrames
  | _ =>
      forall ev, In ev (trace (extractFramesFromVideo w file maxFrames)) ->
                 is_revoke ev = false
  end.
Proof.
  unfold extractFramesFromVideo.
  rewrite outcome_emit_bind, trace_emit_bind.
  destruct (video_load w file) as [duration| |].
  - pose proof (capture_revokes_only_on_success file
                  (number_div duration (number_of_nat maxFrames)) maxFrames
                  0 (video_seek w file) []) as H.
    destruct (outcome (capture file _ maxFrames 0 (video_seek w file) []))
      as [out| |].
    + destruct H as (t0 & -> & Hno & Hlen).
      exists (EvCreateObjectURL file :: t0).
      split; [reflexivity|]. split; [|exact Hlen].
      intros ev [<-|Hin]; [reflexivity | exact (Hno ev Hin)].
    + intros ev [<-|Hin]; [reflexivity | exact (H ev Hin)].
    + intros ev [<-|Hin]; [reflexivity | exact (H ev Hin)].
  - simpl. intros ev [<-|[]]. reflexivity.
  - simpl. intros ev [<-|[]]. reflexivity.
Qed.

(** Five frames of a ten-second video: the seeks go to 0, 2, 4, 6 and 8
    seconds, one after the other, and the object URL is revoked after the
    fifth capture. *)
Example five_frames_of_ten_seconds :
  extractFramesFromVideo Examples.good_world Examples.a_file 5
  = ([EvCreateObjectURL Examples.a_file;
      EvSeek (number_of_nat 0); EvCapture;
      EvSeek (number_of_nat 2); EvCapture;
      EvSeek (number_of_nat 4); EvCapture;
      EvSeek (number_of_nat 6); EvCapture;
      EvSeek (number_of_nat 8); EvCapture;
      EvRevokeObjectURL Examples.a_file],
     Resolved (repeat (Some (js "AAAA")) 5)).
Proof. vm_compute. reflexivity. Qed.

(** C8, at the failing inputs.  When the video element fires [error]
    instead of [loadedmetadata], and when it fires [error] at the third
    seek, the sampler rejects and the object URL it created is never
    revoked. *)
Theorem sampler_leaks_object_url_on_failure :
  extractFramesFromVideo Examples.broken_video_world Examples.a_file 20
  = ([EvCreateObjectURL Examples.a_file], Rejected FrameExtractionFailed)
  /\ extractFramesFromVideo Examples.failing_seek_world Examples.a_file 5
     = ([EvCreateObjectURL Examples.a_file;
         EvSeek (number_of_nat 0); EvCapture;
         EvSeek (number_of_nat 2); EvCapture;
         EvSeek (number_of_nat 4)],
        Rejected FrameExtractionFailed)
  /\ existsb is_revoke
       (trace (extractFramesFromVideo Examples.broken_video_world
                 Examples.a_file 20)) = false
  /\ existsb is_revoke
       (trace (extractFramesFromVideo Examples.failing_seek_world
                 Examples.a_file 5)) = false.
Proof. repeat split; vm_compute; reflexivity. Qed.

(* ================================================================== *)
(** ** The source reconciler (C9) *)

Lemma keeps_is_first_occurrence pre x l seen :
  seen_of pre seen ->
  keeps (pre ++ x :: l) x (Z.of_nat (length pre))
  = nonempty (source_key x) && negb (existsb (eqb (source_key x)) seen).
Proof.
  intro Inv. unfold keeps.
  destruct (nonempty (source_key x)) eqn:Ne; simpl; [|reflexivity].
  rewrite (Inv _ Ne).
  destruct (existsb (fun s => eqb (source_key s) (source_key x)) pre) eqn:Ex.
  - rewrite (findIndex_app_found _ _ pre (x :: l) Ex). simpl.
    pose proof (findIndex_upper _
                  (fun s => eqb (source_key s) (source_key x)) pre).
    apply Z.eqb_neq. lia.
  - rewrite (findIndex_app_first _ _ pre x l Ex (eqb_refl _)).
    simpl. apply Z.eqb_refl.
Qed.

Lemma filter_idx_first_occurrences l :
  forall pre seen arr,
    arr = pre ++ l -> seen_of pre seen ->
    filter_idx (keeps arr) (Z.of_nat (length pre)) l = first_occurrences seen l.
Proof.
  induction l as [|x l IH]; intros pre seen arr -> Inv; [reflexivity|].
  cbn [filter_idx first_occurrences].
  rewrite (keeps_is_first_occurrence pre x l seen Inv).
  replace (Z.of_nat (length pre) + 1) with (Z.of_nat (length (pre ++ [x])))
    by (rewrite length_app; simpl; lia).
  assert (Earr : pre ++ x :: l = (pre ++ [x]) ++ l)
    by (rewrite <- app_assoc; reflexivity).
  destruct (nonempty (source_key x)) eqn:Ne; simpl.
  - destruct (existsb (eqb (source_key x)) seen) eqn:Ex; simpl.
    + apply IH; [exact Earr|].
      intros k Hk. rewrite existsb_app, <- (Inv k Hk). simpl.
      rewrite orb_false_r.
      destruct (eqb (source_key x) k) eqn:E; [|rewrite orb_false_r; reflexivity].
      apply eqb_eq in E. subst k. rewrite Ex. reflexivity.
    + f_equal. apply IH; [exact Earr|].
      intros k Hk. rewrite existsb_app, <- (Inv k Hk). simpl.
      rewrite orb_false_r, (eqb_sym k (source_key x)). apply orb_comm.
  - apply IH; [exact Earr|].
    intros k Hk. rewrite existsb_app, <- (Inv k Hk). simpl.
    rewrite orb_false_r.
    destruct (eqb (source_key x) k) eqn:E; [|rewrite orb_false_r; reflexivity].
    apply eqb_eq in E. subst k. rewrite Hk in Ne. discriminate Ne.
Qed.

(** The filter of [uniqueSources] keeps the first occurrence of each
    non-empty key. *)
Lemma uniqueSources_first_occurrences u xs :
  uniqueSources u xs = first_occurrences [] (original_source u :: xs).
Proof.
  unfold uniqueSources.
  apply (filter_idx_first_occurrences (original_source u :: xs) [] []);
    [reflexivity|].
  intros k _. reflexivity.
Qed.

Lemma first_occurrences_idempotent l :
  forall seen,
    first_occurrences seen (first_occurrences seen l) = first_occurrences seen l.
Proof.
  induction l as [|x l IH]; intro seen; [reflexivity|].
  cbn [first_occurrences].
  destruct (nonempty (source_key x) && negb (existsb (eqb (source_key x)) seen))
    eqn:K.
  - cbn [first_occurrences]. rewrite K, IH. reflexivity.
  - apply IH.
Qed.

Lemma first_occurrences_fixed l :
  forall seen,
    NoDup (source_keys l) ->
    (forall k, In k (source_keys l) -> k <> [] /\ ~ In k seen) ->
    first_occurrences seen l = l.
Proof.
  induction l as [|x l IH]; intros seen Hnd Hk; [reflexivity|].
  cbn [first_occurrences]. simpl in Hnd, Hk. inversion Hnd; subst.
  destruct (Hk (source_key x) (or_introl eq_refl)) as [Hne Hns].
  replace (nonempty (source_key x)) with true
    by (symmetry; apply nonempty_true; exact Hne).
  replace (existsb (eqb (source_key x)) seen) with false.
  - simpl. f_equal. apply IH; [assumption|].
    intros k Hin. destruct (Hk k (or_intror Hin)) as [Hkne Hkns].
    split; [exact Hkne|]. intros [<-|Hs]; [contradiction | contradiction].
  - symmetry. apply not_true_is_false. intro E.
    apply existsb_exists in E as (k & Hin & E). apply eqb_eq in E. subst k.
    contradiction.
Qed.

Lemma source_key_original u : source_key (original_source u) = trim u.
Proof.
  unfold source_key, original_source. simpl.
  destruct u; reflexivity.
Qed.

(** Reconciling twice is reconciling once, for every link and sources. *)
Lemma uniqueSources_idempotent u xs :
  uniqueSources u (uniqueSources u xs) = uniqueSources u xs.
Proof.
  rewrite !uniqueSources_first_occurrences.
  set (s0 := original_source u).
  destruct (nonempty (source_key s0) && negb (existsb (eqb (source_key s0)) []))
    eqn:K.
  - assert (H : forall l,
               first_occurrences [] (s0 :: l)
               = s0 :: first_occurrences [source_key s0] l).
    { intro l. cbn [first_occurrences]. rewrite K. reflexivity. }
    rewrite (H xs), H. f_equal.
    cbn [first_occurrences existsb]. rewrite eqb_refl. simpl.
    rewrite andb_false_r. apply first_occurrences_idempotent.
  - assert (H : forall l,
               first_occurrences [] (s0 :: l) = first_occurrences [] l).
    { intro l. cbn [first_occurrences]. rewrite K. reflexivity. }
    rewrite (H xs), H. apply first_occurrences_idempotent.
Qed.

(** *** Links that reach the reconciler are not blank *)

Lemma trimStart_keeps_last l c :
  is_space c = false -> trimStart (l ++ [c]) <> [].
Proof.
  intro Hc. induction l as [|x l IH]; simpl.
  - rewrite Hc. discriminate.
  - destruct (is_space x); [exact IH | discriminate].
Qed.

Lemma trim_keeps_letter c s : is_space c = false -> trim (c :: s) <> [].
Proof.
  intro Hc. unfold trim, trimEnd. cbn [trimStart]. rewrite Hc.
  intro E. apply (f_equal (@rev codeunit)) in E.
  rewrite rev_involutive in E. simpl rev in E.
  exact (trimStart_keeps_last (rev s) c Hc E).
Qed.

(** On the reference platform a link from which an identifier is
    extracted starts with its scheme, so that it is not blank. *)
Lemma extracted_link_is_not_blank u id :
  extractYouTubeId Reference.platform u = Some id -> trim u <> [].
Proof.
  unfold extractYouTubeId. simpl URL_parse.
  unfold Reference.ref_URL_parse, Reference.strip_scheme.
  destruct u as [|c u]; [discriminate|].
  destruct (startsWith (c :: u) (js "https://")) eqn:S1.
  - intros _. simpl in S1. apply andb_true_iff in S1 as [S1 _].
    apply N.eqb_eq in S1. subst c. apply trim_keeps_letter. reflexivity.
  - destruct (startsWith (c :: u) (js "http://")) eqn:S2; [|discriminate].
    intros _. simpl in S2. apply andb_true_iff in S2 as [S2 _].
    apply N.eqb_eq in S2. subst c. apply trim_keeps_letter. reflexivity.
Qed.

(** C9. For a link [u] that is not blank (as every link is from which an
    identifier was extracted), [uniqueSources] puts the synthetic source of
    the original video first, and reconciling what follows it again gives
    the same list; more generally a list that starts with the original
    video and whose trimmed uris are non-empty and pairwise different is
    returned unchanged. *)
Theorem reconciler_is_idempotent :
  forall (u : jsstring) (xs : list GroundingSource),
    trim u <> [] ->
    uniqueSources u xs = original_source u :: tl (uniqueSources u xs)
    /\ uniqueSources u (tl (uniqueSources u xs)) = uniqueSources u xs
    /\ forall ys,
        NoDup (source_keys (original_source u :: ys)) ->
        ~ In [] (source_keys (original_source u :: ys)) ->
        uniqueSources u ys = original_source u :: ys.
Proof.
  intros u xs Hu.
  assert (K : nonempty (source_key (original_source u))
              && negb (existsb (eqb (source_key (original_source u))) []) = true).
  { rewrite source_key_original. simpl. rewrite andb_true_r.
    apply nonempty_true. exact Hu. }
  assert (Hhead : forall l,
             uniqueSources u l
             = original_source u
                 :: first_occurrences [source_key (original_source u)] l).
  { intro l. rewrite uniqueSources_first_occurrences.
    cbn [first_occurrences]. rewrite K. reflexivity. }
  split; [|split].
  - rewrite Hhead. reflexivity.
  - rewrite (Hhead xs). cbn [tl]. rewrite Hhead.
    rewrite first_occurrences_idempotent. reflexivity.
  - intros ys Hnd Hne. rewrite uniqueSources_first_occurrences.
    apply first_occurrences_fixed; [exact Hnd|].
    intros k Hin. split; [|intros []].
    intros ->. contradiction.
Qed.

(** Four grounding sources, two of them repeating an earlier uri up to
    white space and one blank. *)
Lemma reconciler_is_idempotent_witness :
  uniqueSources Examples.url_watch Examples.two_sources
  = [original_source Examples.url_watch;
     mkSource (Some (js "ge")) (js " https://ge.globo.com/final ")]
  /\ uniqueSources Examples.url_watch
       (tl (uniqueSources Examples.url_watch Examples.two_sources))
     = uniqueSources Examples.url_watch Examples.two_sources.
Proof.
  split; [vm_compute; reflexivity|].
  refine (proj1 (proj2 (reconciler_is_idempotent Examples.url_watch
                          Examples.two_sources _))).
  vm_compute; discriminate.
Defined.

(* ================================================================== *)
(** * Further properties of the service *)

(** ** The credential *)

(** [getClient] takes the first of [VITE_GEMINI_API_KEY], [API_KEY] and
    [GEMINI_API_KEY] that is set and not empty, an empty value being passed
    over like a missing one; it raises MissingCredential exactly when there
    is none.  It performs no interaction. *)
Theorem getClient_takes_first_configured_key :
  forall (w : World),
    getClient w =
    match first_nonempty [VITE_GEMINI_API_KEY (env w); API_KEY (env w);
                          GEMINI_API_KEY (env w)] with
    | Some key => ([], Resolved key)
    | None => ([], Rejected MissingCredential)
    end.
Proof.
  intro w. unfold getClient, getApiKey, or_else. simpl.
  destruct (VITE_GEMINI_API_KEY (env w)) as [[|c1 k1]|];
    destruct (API_KEY (env w)) as [[|c2 k2]|];
    destruct (GEMINI_API_KEY (env w)) as [[|c3 k3]|]; reflexivity.
Qed.

(** ** The identifier extractor *)

Lemma split_parts_have_no_separator sep s :
  forall w, In w (split sep s) -> ~ In sep w.
Proof.
  induction s as [|c s IH]; simpl.
  - intros w [<-|[]] [].
  - destruct (N.eqb c sep) eqn:E.
    + intros w [<-|Hin]; [intros [] | exact (IH w Hin)].
    + destruct (split sep s) as [|x xs] eqn:Sp.
      * intros w [<-|[]] [Hc|[]]. subst. rewrite N.eqb_refl in E. discriminate E.
      * intros w [<-|Hin].
        -- intros [Hc|Hin'].
           ++ subst. rewrite N.eqb_refl in E. discriminate E.
           ++ exact (IH x (or_introl eq_refl) Hin').
        -- exact (IH w (or_intror Hin)).
Qed.

Lemma path_segments_are_segments p id :
  In id (path_segments p) -> segment id.
Proof.
  unfold path_segments, filter_Boolean. intro H.
  apply filter_In in H as [Hin Hne]. split.
  - apply nonempty_true. exact Hne.
  - exact (split_parts_have_no_separator SLASH p id Hin).
Qed.

Lemma at_index_In A (l : list A) i x : at_index l i = Some x -> In x l.
Proof.
  unfold at_index. destruct (i <? 0); [discriminate|].
  apply nth_error_In.
Qed.

(** Whatever the link, an identifier that [extractYouTubeId] returns is not
    the empty string; and when the query has no usable [v] parameter, it is
    one of the non-empty segments of the path, so that it holds no slash. *)
Theorem extracted_identifier_is_a_token :
  forall (P : Platform) (url id : jsstring),
    extractYouTubeId P url = Some id ->
    id <> []
    /\ exists u, URL_parse P url = Some u
                 /\ (has_v u id
                     \/ (no_v u /\ In id (path_segments (pathname u))
                         /\ ~ In SLASH id)).
Proof.
  intros P url id. unfold extractYouTubeId.
  destruct (URL_parse P url) as [u|]; [|discriminate].
  destruct (present (searchParams_get (searchParams u) (js "v"))) eqn:Hv.
  - intro H. apply present_inv in Hv as (c & s & Hv).
    rewrite Hv in H. inversion H; subst id.
    split; [discriminate|]. exists u. split; [reflexivity|].
    left. split; [exact Hv | discriminate].
  - assert (Hpath : forall i,
               present (at_index (path_segments (pathname u)) i) = true ->
               at_index (path_segments (pathname u)) i = Some id ->
               id <> []
               /\ exists u0, Some u = Some u0
                             /\ (has_v u0 id
                                 \/ (no_v u0
                                     /\ In id (path_segments (pathname u0))
                                     /\ ~ In SLASH id))).
    { intros i _ Hi. apply at_index_In in Hi.
      destruct (path_segments_are_segments _ _ Hi) as [Hne Hno].
      split; [exact Hne|]. exists u. split; [reflexivity|].
      right. split; [exact Hv|]. split; assumption. }
    destruct (endsWith (hostname u) (js "youtu.be")).
    + intro H.
      destruct (at_index (path_segments (pathname u)) 0) as [[|c s]|] eqn:E0;
        try discriminate H.
      simpl in H. inversion H; subst id.
      apply (Hpath 0); [rewrite E0; reflexivity | exact E0].
    + destruct ((0 <=? array_indexOf (path_segments (pathname u)) (js "shorts"))
                && present (at_index (path_segments (pathname u))
                              (array_indexOf (path_segments (pathname u))
                                 (js "shorts") + 1))) eqn:Es.
      * apply andb_true_iff in Es as [_ Es]. intro H. exact (Hpath _ Es H).
      * destruct ((0 <=? array_indexOf (path_segments (pathname u)) (js "embed"))
                  && present (at_index (path_segments (pathname u))
                                (array_indexOf (path_segments (pathname u))
                                   (js "embed") + 1))) eqn:Ee;
          [|discriminate].
        apply andb_true_iff in Ee as [_ Ee]. intro H. exact (Hpath _ Ee H).
Qed.

Lemma extracted_identifier_is_a_token_witness :
  js "abc123" <> []
  /\ exists u,
      URL_parse Reference.platform (js "https://www.youtube.com/embed/abc123")
      = Some u
      /\ (has_v u (js "abc123")
          \/ (no_v u /\ In (js "abc123") (path_segments (pathname u))
              /\ ~ In SLASH (js "abc123"))).
Proof.
  apply (extracted_identifier_is_a_token Reference.platform
           (js "https://www.youtube.com/embed/abc123") (js "abc123")).
  vm_compute; reflexivity.
Defined.

(* ================================================================== *)
(** ** The title matcher *)

Lemma trimStart_spaces ws s :
  forallb is_space ws = true -> trimStart (ws ++ s) = trimStart s.
Proof.
  induction ws as [|c ws IH]; simpl; [reflexivity|].
  intro H. apply andb_true_iff in H as [Hc Hws]. rewrite Hc. exact (IH Hws).
Qed.

Lemma trimEnd_spaces s ws :
  forallb is_space ws = true -> trimEnd (s ++ ws) = trimEnd s.
Proof.
  intro H. unfold trimEnd. rewrite rev_app_distr, trimStart_spaces;
    [reflexivity|].
  rewrite forallb_forall in *. intros c Hin. apply H, in_rev. exact Hin.
Qed.

Lemma trim_spaces ws1 s ws2 :
  forallb is_space ws1 = true -> forallb is_space ws2 = true ->
  trim (ws1 ++ s ++ ws2) = trim s.
Proof.
  intros H1 H2. unfold trim. rewrite (trimStart_spaces ws1 _ H1).
  induction s as [|c s IH]; simpl app.
  - rewrite <- (app_nil_r ws2), (trimStart_spaces ws2 [] H2). reflexivity.
  - cbn [trimStart]. destruct (is_space c); [exact IH|].
    change (c :: s ++ ws2) with ((c :: s) ++ ws2).
    apply trimEnd_spaces. exact H2.
Qed.

(** White space around either title does not change the verdict of
    [titlesLooselyMatch]. *)
Theorem title_match_ignores_surrounding_space :
  forall (P : Platform) (a b ws1 ws2 ws3 ws4 : jsstring),
    forallb is_space ws1 = true -> forallb is_space ws2 = true ->
    forallb is_space ws3 = true -> forallb is_space ws4 = true ->
    titlesLooselyMatch P (ws1 ++ a ++ ws2) (ws3 ++ b ++ ws4)
    = titlesLooselyMatch P a b.
Proof.
  intros P a b ws1 ws2 ws3 ws4 H1 H2 H3 H4.
  unfold titlesLooselyMatch, normalizeTitle.
  rewrite (trim_spaces ws1 a ws2 H1 H2), (trim_spaces ws3 b ws4 H3 H4).
  reflexivity.
Qed.

Lemma title_match_ignores_surrounding_space_witness :
  titlesLooselyMatch Reference.platform
    (js "  " ++ js "Final 2022" ++ [9%N; 10%N]) ([160%N] ++ js "final 2022" ++ [])
  = titlesLooselyMatch Reference.platform (js "Final 2022") (js "final 2022").
Proof.
  apply (title_match_ignores_surrounding_space Reference.platform);
    vm_compute; reflexivity.
Defined.

(** [titlesLooselyMatch] does not depend on the order of its arguments; a
    title matches itself exactly when its normal form is not empty; and a
    title whose normal form is empty matches no title at all. *)
Theorem title_match_is_symmetric :
  forall (P : Platform) (a b : jsstring),
    titlesLooselyMatch P a b = titlesLooselyMatch P b a
    /\ titlesLooselyMatch P a a = nonempty (normalizeTitle P a)
    /\ (nonempty (normalizeTitle P a) = false ->
        titlesLooselyMatch P a b = false).
Proof.
  intros P a b. unfold titlesLooselyMatch.
  set (t1 := normalizeTitle P a). set (t2 := normalizeTitle P b).
  split; [|split].
  - rewrite (orb_comm (negb (nonempty t1))), (eqb_sym t1 t2).
    destruct (negb (nonempty t2) || negb (nonempty t1)); [reflexivity|].
    rewrite <- !orb_assoc. f_equal. apply orb_comm.
  - rewrite eqb_refl. destruct (nonempty t1); reflexivity.
  - intros ->. reflexivity.
Qed.

Lemma title_match_is_symmetric_witness :
  titlesLooselyMatch Reference.platform (js "   ") (js "Final 2022") = false.
Proof.
  refine (proj2 (proj2 (title_match_is_symmetric Reference.platform
                          (js "   ") (js "Final 2022"))) _).
  vm_compute; reflexivity.
Defined.

Lemma spaces_apart_cons c d r :
  spaces_apart (c :: d :: r)
  = negb (is_space c && is_space d) && spaces_apart (d :: r).
Proof. reflexivity. Qed.

Lemma collapse_spaces_apart s :
  forall in_run,
    spaces_apart (collapse_spaces in_run s) = true
    /\ (in_run = true ->
        match collapse_spaces in_run s with
        | c :: _ => is_space c = false
        | [] => True
        end).
Proof.
  induction s as [|c s IH]; intro in_run; cbn [collapse_spaces].
  - split; [reflexivity | intros _; exact I].
  - destruct (is_space c) eqn:Ec.
    + destruct in_run.
      * exact (IH true).
      * split; [|discriminate].
        destruct (IH true) as [Hs Hh].
        destruct (collapse_spaces true s) as [|d r] eqn:Er; [reflexivity|].
        rewrite spaces_apart_cons, (Hh eq_refl), andb_false_r. exact Hs.
    + split; [|intros _; exact Ec].
      destruct (IH false) as [Hs _].
      destruct (collapse_spaces false s) as [|d r] eqn:Er; [reflexivity|].
      rewrite spaces_apart_cons, Ec. exact Hs.
Qed.

Lemma collapse_spaces_units (p : codeunit -> bool) s :
  p SPACE = true ->
  (forall c, In c s -> is_space c = false -> p c = true) ->
  forall in_run, forallb p (collapse_spaces in_run s) = true.
Proof.
  intros Hsp. induction s as [|c s IH]; intros Hs in_run;
    cbn [collapse_spaces]; [reflexivity|].
  assert (IH' : forall r, forallb p (collapse_spaces r s) = true).
  { apply IH. intros d Hin. apply Hs. right. exact Hin. }
  destruct (is_space c) eqn:Ec.
  - destruct in_run; [apply IH'|]. simpl. rewrite Hsp. apply IH'.
  - simpl. rewrite (Hs c (or_introl eq_refl) Ec). apply IH'.
Qed.

(** The normal form of a title, whatever the title: it holds none of the
    invisible units U+200B to U+200D and U+FEFF, its only white space unit
    is the plain space, and no two spaces are adjacent. *)
Theorem normalizeTitle_shape :
  forall (P : Platform) (s : jsstring),
    forallb (fun c => negb (is_invisible c)
                      && (negb (is_space c) || (c =? SPACE)%N))
            (normalizeTitle P s) = true
    /\ spaces_apart (normalizeTitle P s) = true.
Proof.
  intros P s. unfold normalizeTitle. split.
  - apply collapse_spaces_units; [reflexivity|].
    intros c Hin Hc. apply filter_In in Hin as [_ Hinv].
    rewrite Hinv, Hc. reflexivity.
  - apply (collapse_spaces_apart _ false).
Qed.

(* ================================================================== *)
(** ** The response parser when the braces are in the other order *)

Lemma substring_swapped x y z :
  substring (x ++ y ++ z) (len x + len y) (len x) = y.
Proof.
  unfold substring, clamp, len.
  rewrite !length_app.
  replace (Z.to_nat (Z.min (Z.max (Z.of_nat (length x) + Z.of_nat (length y)) 0)
             (Z.of_nat (length x + (length y + length z)))))
    with (length x + length y)%nat by lia.
  replace (Z.to_nat (Z.min (Z.max (Z.of_nat (length x)) 0)
             (Z.of_nat (length x + (length y + length z)))))
    with (length x) by lia.
  rewrite Nat.min_r, Nat.max_l by lia.
  replace (length x + length y - length x)%nat with (length y) by lia.
  rewrite skipn_app, skipn_all, Nat.sub_diag. simpl.
  rewrite firstn_app, firstn_all, Nat.sub_diag. simpl.
  apply app_nil_r.
Qed.

(** When the last closing brace of an answer comes before its first opening
    brace, [substring] exchanges its bounds and [parseJsonResponse] decodes
    the text strictly between the two braces; the result need not be an
    object. *)
Theorem parser_decodes_between_swapped_braces :
  forall (P : Platform) (a mid b : jsstring),
    ~ In LBRACE a -> ~ In LBRACE mid -> ~ In RBRACE mid -> ~ In RBRACE b ->
    parseJsonResponse P (Some (a ++ RBRACE :: mid ++ LBRACE :: b))
    = match JSON_parse P mid with Some v => v | None => JNull end.
Proof.
  intros P a mid b Ha Hm1 Hm2 Hb.
  set (text := a ++ RBRACE :: mid ++ LBRACE :: b).
  assert (I : indexOf text LBRACE = len (a ++ [RBRACE]) + len mid).
  { subst text.
    replace (a ++ RBRACE :: mid ++ LBRACE :: b)
      with ((a ++ RBRACE :: mid) ++ LBRACE :: b)
      by (rewrite <- app_assoc; reflexivity).
    rewrite indexOf_first.
    - unfold len. rewrite !length_app. simpl length. lia.
    - intro Hin. apply in_app_or in Hin as [Hin|[Hin|Hin]];
        [exact (Ha Hin) | discriminate Hin | exact (Hm1 Hin)]. }
  assert (L : lastIndexOf text RBRACE = len a).
  { subst text. apply lastIndexOf_last.
    intro Hin. apply in_app_or in Hin as [Hin|[Hin|Hin]];
      [exact (Hm2 Hin) | discriminate Hin | exact (Hb Hin)]. }
  unfold parseJsonResponse. fold text. rewrite I, L.
  replace (substring text (len (a ++ [RBRACE]) + len mid) (len a + 1))
    with mid.
  - destruct (len (a ++ [RBRACE]) + len mid =? -1) eqn:E1.
    { apply Z.eqb_eq in E1. unfold len in E1. lia. }
    destruct (len a =? -1) eqn:E2.
    { apply Z.eqb_eq in E2. unfold len in E2. lia. }
    reflexivity.
  - symmetry. subst text.
    replace (a ++ RBRACE :: mid ++ LBRACE :: b)
      with ((a ++ [RBRACE]) ++ mid ++ LBRACE :: b)
      by (rewrite <- app_assoc; reflexivity).
    replace (len a + 1) with (len (a ++ [RBRACE]))
      by (unfold len; rewrite length_app; simpl; lia).
    apply substring_swapped.
Qed.

Lemma parser_decodes_between_swapped_braces_witness :
  parseJsonResponse Reference.platform
    (Some (js "fim" ++ RBRACE :: js "123" ++ LBRACE :: js "inicio"))
  = JNumber (Reference.number_of_Z false 123).
Proof.
  rewrite (parser_decodes_between_swapped_braces Reference.platform
             (js "fim") (js "123") (js "inicio"));
    [vm_compute; reflexivity | | | |]; vm_compute; intuition discriminate.
Defined.

(* ================================================================== *)
(** ** The metadata verifier *)

Lemma fetchYouTubeOEmbed_trace w url t o :
  fetchYouTubeOEmbed w url = (t, o) ->
  t = match encodeURIComponent url with
      | Some encoded => [EvFetch (oembed_endpoint encoded)]
      | None => []
      end.
Proof.
  unfold fetchYouTubeOEmbed.
  destruct (encodeURIComponent url) as [encoded|].
  - destruct (fetch w (oembed_endpoint encoded)) as [|[|] [data|]];
      intro H; inversion H; reflexivity.
  - intro H; inversion H; reflexivity.
Qed.

(** [fetchYouTubeOEmbed] never rejects.  It asks nothing when the link
    cannot be encoded and otherwise sends exactly one request, to the oEmbed
    address of that link; it resolves with [null] or with an object of the
    two properties [title] and [author_name]; and the title it reports is
    truthy exactly when the verification does not fail. *)
Theorem oembed_lookup_never_rejects :
  forall (w : World) (url : jsstring),
    exists t oembed,
      fetchYouTubeOEmbed w url = (t, Resolved oembed)
      /\ t = match encodeURIComponent url with
             | Some encoded => [EvFetch (oembed_endpoint encoded)]
             | None => []
             end
      /\ (oembed = JNull
          \/ exists title author,
              oembed = JObject [(k_title, title); (k_author_name, author)])
      /\ truthy (get oembed k_title) = negb (verification_fails w url).
Proof.
  intros w url. unfold fetchYouTubeOEmbed, verification_fails.
  destruct (encodeURIComponent url) as [encoded|].
  - destruct (fetch w (oembed_endpoint encoded)) as [|[|] [data|]].
    + exists [EvFetch (oembed_endpoint encoded)], JNull.
      repeat split. left; reflexivity.
    + exists [EvFetch (oembed_endpoint encoded)],
        (JObject [(k_title, get_opt data k_title);
                  (k_author_name, get_opt data k_author_name)]).
      split; [reflexivity|]. split; [reflexivity|]. split.
      * right. eexists; eexists; reflexivity.
      * unfold get_opt. simpl. destruct (truthy (get data k_title)); reflexivity.
    + exists [EvFetch (oembed_endpoint encoded)], JNull.
      repeat split. left; reflexivity.
    + exists [EvFetch (oembed_endpoint encoded)], JNull.
      repeat split. left; reflexivity.
    + exists [EvFetch (oembed_endpoint encoded)], JNull.
      repeat split. left; reflexivity.
  - exists [], JNull. repeat split. left; reflexivity.
Qed.

(* ================================================================== *)
(** ** The shape of a run of the link pipeline *)

Lemma trace_bind_cases A B (m : M A) (k : A -> M B) :
  trace (bind m k)
  = trace m ++ match outcome m with
               | Resolved a => trace (k a)
               | _ => []
               end.
Proof.
  destruct m as [t [a| |]]; unfold bind, trace, outcome; simpl.
  - destruct (k a); reflexivity.
  - rewrite app_nil_r; reflexivity.
  - rewrite app_nil_r; reflexivity.
Qed.

Lemma silent_bind A B (m : M A) (k : A -> M B) :
  trace m = [] -> (forall a, trace (k a) = []) -> trace (bind m k) = [].
Proof.
  intros Hm Hk. rewrite trace_bind_cases, Hm.
  destruct (outcome m); simpl; auto.
Qed.

Lemma interpolate_is_silent vs : trace (interpolate vs) = [].
Proof. unfold interpolate. destruct (forallb stringifies vs); reflexivity. Qed.

Lemma throw_Error_is_silent A v e : trace (@throw_Error A v e) = [].
Proof. rewrite throw_Error_rejects. reflexivity. Qed.

Lemma assign_prop_is_silent v k x : trace (assign_prop v k x) = [].
Proof. unfold assign_prop. destruct (set v k x); reflexivity. Qed.

Lemma titlesLooselyMatch_values_is_silent P a b :
  trace (titlesLooselyMatch_values P a b) = [].
Proof. destruct a, b; reflexivity. Qed.

Lemma getClient_is_silent w : trace (getClient w) = [].
Proof.
  unfold getClient. destruct (getApiKey w) as [[|c k]|]; reflexivity.
Qed.

Lemma getClient_outcome w key :
  outcome (getClient w) = Resolved key -> getApiKey w = Some key /\ key <> [].
Proof.
  unfold getClient. destruct (getApiKey w) as [[|c k]|]; simpl;
    try discriminate.
  intro H. inversion H. split; [reflexivity | discriminate].
Qed.

Lemma models_generateContent_trace w key request :
  trace (models_generateContent w key request) = [EvGenerate request].
Proof.
  unfold models_generateContent. rewrite trace_emit_bind.
  destruct (generateContent w key request); reflexivity.
Qed.

(** The guards that follow the generation call interact with nothing. *)
Ltac silent_guards :=
  repeat first
    [ reflexivity
    | apply interpolate_is_silent
    | apply throw_Error_is_silent
    | apply assign_prop_is_silent
    | apply titlesLooselyMatch_values_is_silent
    | apply silent_bind; [|intro]
    | match goal with
      | |- context [if ?b then _ else _] => destruct b
      end ].

(** Every run of the link pipeline is one of three: no interaction at all;
    the one metadata request; or the metadata request followed by one
    generation call, which is made only for a link with an identifier,
    verified metadata and a configured credential, and whose request carries
    that link, that identifier and that metadata.  A link without
    identifier is refused before any interaction. *)
Theorem link_pipeline_interactions :
  forall (P : Platform) (w : World) (url : jsstring) (mode : Mode),
    let t := trace (getAnalysisFromWeb P w url mode) in
    (present (extractYouTubeId P url) = false ->
     getAnalysisFromWeb P w url mode = ([], Rejected InvalidLink))
    /\ (t = []
        \/ (exists encoded, t = [EvFetch (oembed_endpoint encoded)])
        \/ (exists encoded id oembed,
               extractYouTubeId P url = Some id
               /\ fetchYouTubeOEmbed w url
                  = ([EvFetch (oembed_endpoint encoded)], Resolved oembed)
               /\ truthy (get oembed k_title) = true
               /\ present (getApiKey w) = true
               /\ t = [EvFetch (oembed_endpoint encoded);
                       EvGenerate (analysisRequest url id oembed
                                                   (isDetailed mode))])).
Proof.
  intros P w url mode t. subst t. unfold getAnalysisFromWeb.
  destruct (extractYouTubeId P url) as [[|c id]|] eqn:Ex;
    try (split; [reflexivity | left; reflexivity]).
  split; [discriminate|].
  destruct (fetchYouTubeOEmbed_resolves w url) as (t & oembed & Hf & _ & _).
  pose proof (fetchYouTubeOEmbed_trace w url t _ Hf) as Ht.
  rewrite Hf, trace_bind_cases. cbn [trace outcome fst snd].
  unfold get_opt.
  destruct (truthy (get oembed k_title)) eqn:Etitle; cbn [negb].
  2:{ cbn [trace throw fst]. rewrite app_nil_r, Ht.
      destruct (encodeURIComponent url); [right; left; eauto | left; reflexivity]. }
  rewrite trace_bind_cases, interpolate_is_silent. cbn [app].
  destruct (outcome (interpolate [get oembed k_title; canal oembed])) as [[]| |];
    try (rewrite app_nil_r, Ht;
         destruct (encodeURIComponent url);
         [right; left; eauto | left; reflexivity]).
  rewrite trace_bind_cases, getClient_is_silent. cbn [app].
  destruct (outcome (getClient w)) as [key| |] eqn:Ekey;
    try (rewrite app_nil_r, Ht;
         destruct (encodeURIComponent url);
         [right; left; eauto | left; reflexivity]).
  apply getClient_outcome in Ekey as [Hkey Hne].
  rewrite trace_bind_cases, models_generateContent_trace.
  replace (match outcome (models_generateContent w key
                            (analysisRequest url (c :: id) oembed (isDetailed mode)))
           with
           | Resolved a => trace _
           | _ => []
           end) with (@nil Event).
  - destruct (encodeURIComponent url) as [encoded|] eqn:Eenc.
    + right; right. exists encoded, (c :: id), oembed.
      subst t. repeat split; try assumption.
      rewrite Hkey. apply present_Some. exact Hne.
    + (* without an encoded link the verifier yields null *)
      exfalso. unfold fetchYouTubeOEmbed in Hf. rewrite Eenc in Hf.
      inversion Hf; subst. discriminate Etitle.
  - destruct (outcome (models_generateContent w key _)) as [response| |];
      try reflexivity.
    symmetry. silent_guards.
Qed.

Lemma link_pipeline_interactions_witness :
  getAnalysisFromWeb Reference.platform Examples.good_world
    (js "not a link") web_mode
  = ([], Rejected InvalidLink).
Proof.
  refine (proj1 (link_pipeline_interactions Reference.platform
                   Examples.good_world (js "not a link") web_mode) _).
  vm_compute; reflexivity.
Defined.

(* ================================================================== *)
(** ** Where a returned document comes from *)

Lemma getClient_resolved_inv w t key :
  getClient w = (t, Resolved key) -> getApiKey w = Some key /\ key <> [] /\ t = [].
Proof.
  unfold getClient. destruct (getApiKey w) as [[|c k]|]; unfold ret, throw;
    intro H; inversion H; subst. repeat split. discriminate.
Qed.

Lemma models_generateContent_resolved_inv w key request t response :
  models_generateContent w key request = (t, Resolved response) ->
  generateContent w key request = GenResolved response
  /\ t = [EvGenerate request].
Proof.
  unfold models_generateContent, bind, emit.
  destruct (generateContent w key request) as [reason|response'];
    unfold throw, ret; intro H; inversion H; subst. split; reflexivity.
Qed.

Lemma titlesLooselyMatch_values_resolved P x y t matches :
  titlesLooselyMatch_values P x y = (t, Resolved matches) ->
  exists a b, x = JString a /\ y = JString b
              /\ matches = titlesLooselyMatch P a b /\ t = [].
Proof.
  destruct x, y; unfold titlesLooselyMatch_values, ret, throw; intro H;
    inversion H; subst. eexists; eexists; repeat split.
Qed.

(** A document returned by the link pipeline was produced by exactly one
    generation call, made after the one metadata request with a request
    that carries the link, its identifier and the verified metadata.  Its
    title is a string that [titlesLooselyMatch] accepts against the verified
    title, it declares no error, and its [sources] are the grounding
    sources of that very answer, reconciled with the link. *)
Theorem returned_document_provenance :
  forall (P : Platform) (w : World) (url : jsstring) (mode : Mode)
         (t : list Event) (doc : value),
    getAnalysisFromWeb P w url mode = (t, Resolved doc) ->
    exists encoded id oembed key response a b,
      extractYouTubeId P url = Some id
      /\ fetchYouTubeOEmbed w url
         = ([EvFetch (oembed_endpoint encoded)], Resolved oembed)
      /\ getApiKey w = Some key
      /\ generateContent w key (analysisRequest url id oembed (isDetailed mode))
         = GenResolved response
      /\ t = [EvFetch (oembed_endpoint encoded);
              EvGenerate (analysisRequest url id oembed (isDetailed mode))]
      /\ get oembed k_title = JString a
      /\ get doc k_videoTitle = JString b
      /\ titlesLooselyMatch P a b = true
      /\ truthy (get doc k_error) = false
      /\ get doc k_sources
         = JArray (map source_value
                     (uniqueSources url
                        (sources_of_chunks (groundingChunks response)))) [].
Proof.
  intros P w url mode t doc H.
  unfold getAnalysisFromWeb in H.
  destruct (extractYouTubeId P url) as [[|c id]|] eqn:Ex; try discriminate H.
  apply bind_resolved in H as (t1 & oembed & t2 & Hf & H & ->).
  unfold get_opt in H.
  destruct (truthy (get oembed k_title)) eqn:Etitle; try discriminate H.
  cbn [negb] in H.
  apply bind_resolved in H as (t0 & [] & t0' & Hi & H & ->).
  apply interpolate_silent in Hi. subst t0.
  apply bind_resolved in H as (t3 & key & t4 & Hc & H & ->).
  apply getClient_resolved_inv in Hc as (Hkey & _ & ->).
  apply bind_resolved in H as (t5 & response & t6 & Hg & H & ->).
  apply models_generateContent_resolved_inv in Hg as [Hg ->].
  destruct (negb (truthy (parseJsonResponse P (text response))));
    try discriminate H.
  destruct (truthy (get (parseJsonResponse P (text response)) k_error)) eqn:Eerr;
    [rewrite throw_Error_rejects in H; discriminate H|].
  apply bind_resolved in H as (t7 & pinned & t8 & Hpin & H & ->).
  apply assign_prop_resolved in Hpin as [Hpin ->].
  destruct (negb (truthy (get pinned k_videoId))); try discriminate H.
  destruct (negb (strict_eq_string (get pinned k_videoId) (c :: id)));
    [rewrite throw_Error_rejects in H; discriminate H|].
  destruct (negb (is_string (get pinned k_videoTitle))); try discriminate H.
  apply bind_resolved in H as (t9 & matches & t10 & Hm & H & ->).
  apply titlesLooselyMatch_values_resolved in Hm as (a & b & Ha & Hb & -> & ->).
  destruct (titlesLooselyMatch P a b) eqn:Ematch; try discriminate H.
  cbn [negb] in H.
  apply bind_resolved in H as (t11 & final & t12 & Hsrc & H & ->).
  apply assign_prop_resolved in Hsrc as [Hsrc ->].
  unfold ret in H. inversion H; subst.
  pose proof (fetchYouTubeOEmbed_trace w url t1 _ Hf) as Ht1.
  destruct (encodeURIComponent url) as [encoded|] eqn:Eenc.
  - exists encoded, (c :: id), oembed, key, response, a, b.
    subst t1. repeat split; try assumption; try reflexivity.
    + rewrite (get_set_other _ _ _ _ _ Hsrc) by (vm_compute; discriminate).
      exact Hb.
    + rewrite (get_set_other _ _ _ _ _ Hsrc) by (vm_compute; discriminate).
      rewrite (get_set_other _ _ _ _ _ Hpin) by (vm_compute; discriminate).
      exact Eerr.
    + exact (get_set_same _ _ _ _ Hsrc).
  - exfalso. unfold fetchYouTubeOEmbed in Hf. rewrite Eenc in Hf.
    inversion Hf; subst. discriminate Etitle.
Qed.

Lemma returned_document_provenance_witness :
  exists encoded id oembed key response a b,
    extractYouTubeId Reference.platform Examples.url_watch = Some id
    /\ fetchYouTubeOEmbed Examples.good_world Examples.url_watch
       = ([EvFetch (oembed_endpoint encoded)], Resolved oembed)
    /\ getApiKey Examples.good_world = Some key
    /\ generateContent Examples.good_world key
         (analysisRequest Examples.url_watch id oembed (isDetailed web_mode))
       = GenResolved response
    /\ trace (getAnalysisFromWeb Reference.platform Examples.good_world
                Examples.url_watch web_mode)
       = [EvFetch (oembed_endpoint encoded);
          EvGenerate (analysisRequest Examples.url_watch id oembed
                                      (isDetailed web_mode))]
    /\ get oembed k_title = JString a
    /\ get good_document k_videoTitle = JString b
    /\ titlesLooselyMatch Reference.platform a b = true
    /\ truthy (get good_document k_error) = false
    /\ get good_document k_sources
       = JArray (map source_value
                   (uniqueSources Examples.url_watch
                      (sources_of_chunks (groundingChunks response)))) [].
Proof.
  apply (returned_document_provenance Reference.platform Examples.good_world
           Examples.url_watch web_mode).
  vm_compute. reflexivity.
Defined.

(* ================================================================== *)
(** ** The guards on the decoded answer *)

Section AfterGeneration.

Variable P : Platform.
Variable w : World.
Variables (url id key : jsstring) (mode : Mode).
Variables (t1 : list Event) (oembed : value).

Hypothesis extracted : extractYouTubeId P url = Some id.
Hypothesis id_not_empty : id <> [].
Hypothesis verified : fetchYouTubeOEmbed w url = (t1, Resolved oembed).
Hypothesis titled : truthy (get oembed k_title) = true.
Hypothesis prompted : prompt_builds oembed = true.
Hypothesis configured : getApiKey w = Some key.
Hypothesis key_not_empty : key <> [].

Let request := analysisRequest url id oembed (isDetailed mode).

Lemma web_rejected_generation reason :
  generateContent w key request = GenRejected reason ->
  getAnalysisFromWeb P w url mode
  = (t1 ++ [EvGenerate request], Rejected (TransportError reason)).
Proof.
  intro Hg. unfold getAnalysisFromWeb. rewrite extracted.
  destruct id as [|c i] eqn:Eid; [contradiction|].
  rewrite verified, bind_of_resolved. unfold get_opt. rewrite titled.
  cbn [negb]. rewrite (interpolate_prompt _ prompted), bind_of_resolved.
  rewrite (getClient_resolved _ _ configured key_not_empty), bind_of_resolved.
  unfold models_generateContent. subst request. rewrite Hg.
  reflexivity.
Qed.

Lemma web_decoded_outcome response :
  generateContent w key request = GenResolved response ->
  outcome (getAnalysisFromWeb P w url mode)
  = let analysis := parseJsonResponse P (text response) in
    if negb (truthy analysis) then Rejected UnparsableResponse
    else if truthy (get analysis k_error)
    then Rejected (if stringifies (get analysis k_error)
                   then ModelDeclinedIdentification (get analysis k_error)
                   else TypeError)
    else match set analysis k_videoUrl (JString url) with
         | None => Rejected TypeError
         | Some pinned =>
             if negb (truthy (get pinned k_videoId)) then Rejected MissingVideoId
             else if negb (strict_eq_string (get pinned k_videoId) id)
             then Rejected (if stringifies (get pinned k_videoId)
                            then VideoIdMismatch (get pinned k_videoId) id
                            else TypeError)
             else if negb (is_string (get pinned k_videoTitle))
             then Rejected TitleMismatch
             else
               match get oembed k_title, get pinned k_videoTitle with
               | JString a, JString b =>
                   if titlesLooselyMatch P a b
                   then match set pinned k_sources
                                (JArray
                                   (map source_value
                                      (uniqueSources url
                                         (sources_of_chunks
                                            (groundingChunks response)))) [])
                        with
                        | Some final => Resolved final
                        | None => Rejected TypeError
                        end
                   else Rejected TitleMismatch
               | _, _ => Rejected TypeError
               end
         end.
Proof.
  intro Hg. unfold getAnalysisFromWeb. rewrite extracted.
  destruct id as [|c i] eqn:Eid; [contradiction|].
  rewrite (outcome_bind _ _ _ _ _ _ verified).
  unfold get_opt. rewrite titled. cbn [negb].
  rewrite (outcome_bind _ _ _ _ _ _ (interpolate_prompt _ prompted)).
  rewrite (outcome_bind _ _ _ _ _ _
             (getClient_resolved _ _ configured key_not_empty)).
  subst request.
  rewrite (outcome_bind _ _ _ _ _ _
             (models_generateContent_resolved _ _ _ _ Hg)).
  cbv zeta.
  destruct (negb (truthy (parseJsonResponse P (text response))));
    [reflexivity|].
  destruct (truthy (get (parseJsonResponse P (text response)) k_error));
    [rewrite throw_Error_rejects; reflexivity|].
  unfold assign_prop at 1.
  destruct (set (parseJsonResponse P (text response)) k_videoUrl (JString url))
    as [pinned|]; [|reflexivity].
  rewrite (outcome_bind _ _ _ _ [] pinned) by reflexivity.
  destruct (negb (truthy (get pinned k_videoId))); [reflexivity|].
  destruct (negb (strict_eq_string (get pinned k_videoId) (c :: i)));
    [rewrite throw_Error_rejects; reflexivity|].
  destruct (negb (is_string (get pinned k_videoTitle))); [reflexivity|].
  destruct (get oembed k_title), (get pinned k_videoTitle); try reflexivity.
  unfold titlesLooselyMatch_values.
  rewrite (outcome_bind _ _ _ _ [] (titlesLooselyMatch P s s0)) by reflexivity.
  destruct (titlesLooselyMatch P s s0); [|reflexivity].
  cbn [negb]. unfold assign_prop.
  destruct (set pinned k_sources _); reflexivity.
Qed.

End AfterGeneration.

(** What the link pipeline makes of the answer of the model, once it has
    one.  An answer that decodes to nothing truthy is UnparsableResponse.  A
    truthy [error] field ends the pipeline whatever else the answer holds:
    with ModelDeclinedIdentification, carrying the field, when the field
    converts to a string, and with the TypeError of that conversion when it
    does not.  A truthy answer without a truthy [error] field into which
    the link cannot be written, because it is not an object, fails with a
    TypeError. *)
Theorem answer_guards :
  forall (P : Platform) (w : World) (url id key : jsstring) (mode : Mode)
         (t1 : list Event) (oembed : value) (response : GenResponse),
    extractYouTubeId P url = Some id -> id <> [] ->
    fetchYouTubeOEmbed w url = (t1, Resolved oembed) ->
    truthy (get oembed k_title) = true ->
    prompt_builds oembed = true ->
    getApiKey w = Some key -> key <> [] ->
    generateContent w key (analysisRequest url id oembed (isDetailed mode))
      = GenResolved response ->
    let analysis := parseJsonResponse P (text response) in
    let result := outcome (getAnalysisFromWeb P w url mode) in
    (truthy analysis = false -> result = Rejected UnparsableResponse)
    /\ (truthy analysis = true ->
        truthy (get analysis k_error) = true ->
        result = Rejected (if stringifies (get analysis k_error)
                           then ModelDeclinedIdentification
                                  (get analysis k_error)
                           else TypeError))
    /\ (truthy analysis = true ->
        truthy (get analysis k_error) = false ->
        set analysis k_videoUrl (JString url) = None ->
        result = Rejected TypeError).
Proof.
  intros P w url id key mode t1 oembed response
         Ex Hid Hf Ht Hb Hk Hkey Hg analysis result.
  subst result.
  rewrite (web_decoded_outcome P w url id key mode t1 oembed
             Ex Hid Hf Ht Hb Hk Hkey response Hg).
  cbv zeta. fold analysis.
  split; [|split].
  - intros ->. reflexivity.
  - intros -> ->. reflexivity.
  - intros -> -> ->. reflexivity.
Qed.

(** A declared error, a declared error without string form, and a number
    between braces in the wrong order. *)
Lemma answer_guards_witness :
  outcome (getAnalysisFromWeb Reference.platform Examples.declining_world
             Examples.url_watch web_mode)
  = Rejected (ModelDeclinedIdentification
                (JString (js "Incapaz de identificar a partida.")))
  /\ outcome (getAnalysisFromWeb Reference.platform unprintable_world
                Examples.url_watch web_mode)
     = Rejected TypeError
  /\ outcome (getAnalysisFromWeb Reference.platform number_world
                Examples.url_watch web_mode)
     = Rejected TypeError.
Proof.
  split; [|split].
  - refine (proj1 (proj2 (answer_guards Reference.platform
              Examples.declining_world Examples.url_watch (js "ABC123")
              (js "secret") web_mode [EvFetch watch_endpoint]
              Examples.oembed_body
              (mkGenResponse
                 (Some (jq "{'error':'Incapaz de identificar a partida.'}")) None)
              _ _ _ _ _ _ _ _)) _ _);
      try (vm_compute; reflexivity); vm_compute; discriminate.
  - refine (proj1 (proj2 (answer_guards Reference.platform
              unprintable_world Examples.url_watch (js "ABC123")
              (js "secret") web_mode [EvFetch watch_endpoint]
              Examples.oembed_body
              (mkGenResponse (Some (jq "{'error':{'toString':1}}")) None)
              _ _ _ _ _ _ _ _)) _ _);
      try (vm_compute; reflexivity); vm_compute; discriminate.
  - refine (proj2 (proj2 (answer_guards Reference.platform
              number_world Examples.url_watch (js "ABC123")
              (js "secret") web_mode [EvFetch watch_endpoint]
              Examples.oembed_body
              (mkGenResponse
                 (Some (js "fim" ++ RBRACE :: js "123" ++ LBRACE :: js "inicio"))
                 None)
              _ _ _ _ _ _ _ _)) _ _ _);
      try (vm_compute; reflexivity); vm_compute; discriminate.
Defined.

(** The title guard and the way out of the pipeline.  When the decoded
    object declares no error and echoes the extracted identifier, and the
    verified title is a string: the pipeline returns that object, with the
    link written into [videoUrl] and the reconciled sources into
    [sources], if its [videoTitle] is a string that [titlesLooselyMatch]
    accepts; in every other case it ends with TitleMismatch. *)
Theorem title_guard :
  forall (P : Platform) (w : World) (url id key : jsstring) (mode : Mode)
         (t1 : list Event) (oembed : value) (response : GenResponse)
         (props : list (jsstring * value)) (a : jsstring),
    extractYouTubeId P url = Some id -> id <> [] ->
    fetchYouTubeOEmbed w url = (t1, Resolved oembed) ->
    truthy (get oembed k_title) = true ->
    prompt_builds oembed = true ->
    getApiKey w = Some key -> key <> [] ->
    generateContent w key (analysisRequest url id oembed (isDetailed mode))
      = GenResolved response ->
    parseJsonResponse P (text response) = JObject props ->
    truthy (get (JObject props) k_error) = false ->
    lookup k_videoId props = Some (JString id) ->
    get oembed k_title = JString a ->
    outcome (getAnalysisFromWeb P w url mode)
    = match lookup k_videoTitle props with
      | Some (JString b) =>
          if titlesLooselyMatch P a b
          then Resolved
                 (JObject
                    (assign k_sources
                       (JArray
                          (map source_value
                             (uniqueSources url
                                (sources_of_chunks (groundingChunks response))))
                          [])
                       (assign k_videoUrl (JString url) props)))
          else Rejected TitleMismatch
      | _ => Rejected TitleMismatch
      end.
Proof.
  intros P w url id key mode t1 oembed response props a
         Ex Hid Hf Ht Hb Hk Hkey Hg Hp He Hv Ha.
  rewrite (web_decoded_outcome P w url id key mode t1 oembed
             Ex Hid Hf Ht Hb Hk Hkey response Hg).
  cbv zeta. rewrite Hp, He. cbn [truthy negb set].
  rewrite get_pinned_videoId.
  assert (G : get (JObject props) k_videoId = JString id)
    by (simpl; rewrite Hv; reflexivity).
  rewrite G. cbn [truthy strict_eq_string]. rewrite eqb_refl.
  rewrite (proj2 (nonempty_true id) Hid). cbn [negb].
  assert (T : get (JObject (assign k_videoUrl (JString url) props)) k_videoTitle
              = match lookup k_videoTitle props with
                | Some x => x
                | None => JUndefined
                end).
  { simpl. rewrite lookup_assign_other by (vm_compute; discriminate).
    reflexivity. }
  rewrite T, Ha.
  destruct (lookup k_videoTitle props) as [[| | | |b| |]|]; try reflexivity.
Qed.

Lemma title_guard_witness :
  outcome (getAnalysisFromWeb Reference.platform retitled_world
             Examples.url_watch web_mode)
  = Rejected TitleMismatch.
Proof.
  rewrite (title_guard Reference.platform retitled_world Examples.url_watch
             (js "ABC123") (js "secret") web_mode [EvFetch watch_endpoint]
             Examples.oembed_body
             (mkGenResponse
                (Some (jq "{'videoTitle':'Semifinal 2014','videoId':'ABC123'}"))
                None)
             [(k_videoTitle, JString (js "Semifinal 2014"));
              (k_videoId, JString (js "ABC123"))]
             (js "Final 2022 - Melhores Momentos"));
    try (vm_compute; reflexivity); vm_compute; discriminate.
Defined.

(** A generation call that is rejected ends either pipeline with the
    transport error, right after the call: nothing is decoded and no
    document is returned. *)
Theorem transport_failure_is_reported :
  forall (P : Platform) (w : World) (key reason : jsstring),
    getApiKey w = Some key -> key <> [] ->
    (forall url id mode t1 oembed,
        extractYouTubeId P url = Some id -> id <> [] ->
        fetchYouTubeOEmbed w url = (t1, Resolved oembed) ->
        truthy (get oembed k_title) = true ->
        prompt_builds oembed = true ->
        generateContent w key (analysisRequest url id oembed (isDetailed mode))
          = GenRejected reason ->
        getAnalysisFromWeb P w url mode
        = (t1 ++ [EvGenerate (analysisRequest url id oembed (isDetailed mode))],
           Rejected (TransportError reason)))
    /\ (forall file t frames,
           extractFramesFromVideo w file 20 = (t, Resolved frames) ->
           generateContent w key (framesRequest frames) = GenRejected reason ->
           getAnalysisFromFile P w file
           = (t ++ [EvGenerate (framesRequest frames)],
              Rejected (TransportError reason))).
Proof.
  intros P w key reason Hk Hkey. split.
  - intros url id mode t1 oembed Ex Hid Hf Ht Hb Hg.
    exact (web_rejected_generation P w url id key mode t1 oembed
             Ex Hid Hf Ht Hb Hk Hkey reason Hg).
  - intros file t frames Hs Hg. unfold getAnalysisFromFile.
    rewrite Hs, bind_of_resolved.
    rewrite (getClient_resolved _ _ Hk Hkey), bind_of_resolved.
    unfold models_generateContent. rewrite Hg. reflexivity.
Qed.

Lemma transport_failure_is_reported_witness :
  getAnalysisFromWeb Reference.platform offline_world Examples.url_watch web_mode
  = ([EvFetch watch_endpoint] ++ [EvGenerate watch_request],
     Rejected (TransportError (js "Failed to fetch"))).
Proof.
  refine (proj1 (transport_failure_is_reported Reference.platform offline_world
                   (js "secret") (js "Failed to fetch") _ _)
                Examples.url_watch (js "ABC123") web_mode
                [EvFetch watch_endpoint] Examples.oembed_body _ _ _ _ _ _);
    try (vm_compute; reflexivity); vm_compute; discriminate.
Defined.

(* ================================================================== *)
(** ** The reconciled sources *)

Lemma existsb_eqb_In k seen : existsb (eqb k) seen = true <-> In k seen.
Proof.
  rewrite existsb_exists. split.
  - intros (x & Hin & E). apply eqb_eq in E. subst. exact Hin.
  - intro Hin. exists k. split; [exact Hin | apply eqb_refl].
Qed.

Lemma first_occurrences_keys l :
  forall seen,
    NoDup (source_keys (first_occurrences seen l))
    /\ forall k, In k (source_keys (first_occurrences seen l)) ->
                 k <> [] /\ ~ In k seen.
Proof.
  induction l as [|x l IH]; intro seen; cbn [first_occurrences].
  - split; [constructor | intros k []].
  - destruct (nonempty (source_key x)
              && negb (existsb (eqb (source_key x)) seen)) eqn:K.
    + apply andb_true_iff in K as [Kne Kns].
      destruct (IH (source_key x :: seen)) as [Hnd Hk].
      split.
      * simpl. constructor; [|exact Hnd].
        intro Hin. apply (proj2 (Hk _ Hin)). left. reflexivity.
      * intros k [<-|Hin].
        -- split; [apply nonempty_true; exact Kne|].
           intro Hs. apply existsb_eqb_In in Hs. rewrite Hs in Kns.
           discriminate Kns.
        -- destruct (Hk k Hin) as [Hne Hns]. split; [exact Hne|].
           intro Hs. apply Hns. right. exact Hs.
    + exact (IH seen).
Qed.

Lemma first_occurrences_subset l :
  forall seen s, In s (first_occurrences seen l) -> In s l.
Proof.
  induction l as [|x l IH]; intros seen s; cbn [first_occurrences]; [intros []|].
  destruct (nonempty (source_key x) && negb (existsb (eqb (source_key x)) seen)).
  - intros [<-|Hin]; [left; reflexivity | right; exact (IH _ _ Hin)].
  - intro Hin. right. exact (IH _ _ Hin).
Qed.

Lemma first_occurrences_complete l :
  forall seen k,
    In k (source_keys l) -> k <> [] -> ~ In k seen ->
    In k (source_keys (first_occurrences seen l)).
Proof.
  induction l as [|x l IH]; intros seen k; [intros []|].
  cbn [first_occurrences]. simpl source_keys at 1.
  intros Hin Hne Hns.
  destruct (nonempty (source_key x)
            && negb (existsb (eqb (source_key x)) seen)) eqn:K.
  - destruct (list_eq_dec N.eq_dec (source_key x) k) as [E|E].
    + left. exact E.
    + right. apply IH; [|exact Hne|].
      * destruct Hin as [Hin|Hin]; [contradiction | exact Hin].
      * intros [Hs|Hs]; [contradiction | exact (Hns Hs)].
  - destruct Hin as [Hin|Hin]; [|exact (IH seen k Hin Hne Hns)].
    exfalso. subst k.
    apply andb_false_iff in K as [K|K].
    + apply nonempty_true in Hne. rewrite Hne in K. discriminate K.
    + apply negb_false_iff, existsb_eqb_In in K. exact (Hns K).
Qed.

(** The list [uniqueSources] builds, for every link and every list of
    grounding sources: its trimmed uris are pairwise different and none is
    empty; each of its sources is the original video or one of the grounding
    sources; and every non-empty trimmed uri of those is represented. *)
Theorem reconciled_sources_are_distinct :
  forall (u : jsstring) (xs : list GroundingSource),
    NoDup (source_keys (uniqueSources u xs))
    /\ ~ In [] (source_keys (uniqueSources u xs))
    /\ (forall s, In s (uniqueSources u xs) -> In s (original_source u :: xs))
    /\ (forall s, In s (original_source u :: xs) -> source_key s <> [] ->
                  In (source_key s) (source_keys (uniqueSources u xs))).
Proof.
  intros u xs. rewrite uniqueSources_first_occurrences.
  destruct (first_occurrences_keys (original_source u :: xs) []) as [Hnd Hk].
  split; [exact Hnd|]. split; [|split].
  - intro Hin. destruct (Hk [] Hin) as [Hne _]. apply Hne. reflexivity.
  - intros s. apply first_occurrences_subset.
  - intros s Hin Hne. apply first_occurrences_complete; [|exact Hne|intros []].
    unfold source_keys. apply in_map. exact Hin.
Qed.

Lemma reconciled_sources_are_distinct_witness :
  In (js "https://ge.globo.com/final")
     (source_keys (uniqueSources Examples.url_watch Examples.two_sources)).
Proof.
  refine (proj2 (proj2 (proj2 (reconciled_sources_are_distinct
                                 Examples.url_watch Examples.two_sources)))
                (mkSource (Some (js "again")) (js "https://ge.globo.com/final"))
                _ _).
  - right; right; right; left. reflexivity.
  - vm_compute; discriminate.
Defined.

(* ================================================================== *)
(** ** The frame sampler, capture by capture *)

Lemma capture_completes file step remaining :
  forall captured replies frames,
    finite_times step remaining captured = true ->
    (remaining <= length replies)%nat ->
    forallb is_seeked (firstn remaining replies) = true ->
    capture file step remaining captured replies frames
    = (capture_events step remaining captured ++ [EvRevokeObjectURL file],
       Resolved (frames ++ map frame_of (firstn remaining replies))).
Proof.
  induction remaining as [|remaining IH]; intros captured replies frames Hf Hl Hs.
  - simpl. rewrite app_nil_r. reflexivity.
  - cbn [capture finite_times] in *. cbv zeta.
    apply andb_true_iff in Hf as [Hf1 Hf2]. rewrite Hf1.
    destruct replies as [|[dataURL|] replies]; simpl in Hl;
      [lia | | simpl in Hs; discriminate Hs].
    cbn [firstn forallb is_seeked andb] in Hs.
    rewrite (IH (S captured) replies _ Hf2 ltac:(lia) Hs).
    cbn [firstn map frame_of capture_events]. unfold bind, emit. simpl.
    rewrite <- app_assoc. reflexivity.
Qed.

Lemma capture_resolved_only_if file step remaining :
  forall captured replies frames out,
    outcome (capture file step remaining captured replies frames) = Resolved out ->
    finite_times step remaining captured = true
    /\ (remaining <= length replies)%nat
    /\ forallb is_seeked (firstn remaining replies) = true.
Proof.
  induction remaining as [|remaining IH]; intros captured replies frames out.
  - intros _. repeat split. simpl. lia.
  - cbn [capture finite_times]. cbv zeta.
    destruct (is_finite (number_mul (number_of_nat captured) step));
      [|discriminate].
    rewrite outcome_emit_bind.
    destruct replies as [|[dataURL|] replies]; try discriminate.
    rewrite outcome_emit_bind. intro H.
    destruct (IH _ _ _ _ H) as (Hf & Hl & Hs).
    repeat split; [exact Hf | simpl; lia | exact Hs].
Qed.

(** Once the metadata of the video are loaded, the sampler resolves
    exactly when every seek time is finite and the element answers each of
    the [maxFrames] seeks with [seeked].  It then has created the object
    URL, sought to [i * (duration / maxFrames)] and captured for [i] from 0
    to [maxFrames - 1], one capture after the other, revoked the object URL
    last, and it yields the image data of these captures in that order. *)
Theorem sampler_resolves_exactly_when :
  forall (w : World) (file : File) (maxFrames : nat) (duration : spec_float),
    video_load w file = LoadedMetadata duration ->
    let step := number_div duration (number_of_nat maxFrames) in
    let replies := video_seek w file in
    (sampling_completes step maxFrames replies = true ->
     extractFramesFromVideo w file maxFrames
     = (EvCreateObjectURL file
          :: capture_events step maxFrames 0 ++ [EvRevokeObjectURL file],
        Resolved (map frame_of (firstn maxFrames replies))))
    /\ (forall frames,
           outcome (extractFramesFromVideo w file maxFrames) = Resolved frames ->
           sampling_completes step maxFrames replies = true).
Proof.
  intros w file n duration Hload step replies.
  unfold extractFramesFromVideo, sampling_completes. rewrite Hload.
  fold step. fold replies. split.
  - intro H. apply andb_true_iff in H as [H Hs].
    apply andb_true_iff in H as [Hf Hl]. apply Nat.leb_le in Hl.
    rewrite (capture_completes file step n 0 replies [] Hf Hl Hs).
    reflexivity.
  - intros frames. rewrite outcome_emit_bind. intro H.
    destruct (capture_resolved_only_if _ _ _ _ _ _ _ H) as (Hf & Hl & Hs).
    rewrite Hf, Hs. apply Nat.leb_le in Hl. rewrite Hl. reflexivity.
Qed.

Lemma sampler_resolves_exactly_when_witness :
  extractFramesFromVideo Examples.good_world Examples.a_file 5
  = (EvCreateObjectURL Examples.a_file
       :: capture_events (number_div (number_of_nat 10) (number_of_nat 5)) 5 0
       ++ [EvRevokeObjectURL Examples.a_file],
     Resolved (map frame_of (firstn 5 (repeat (Seeked Examples.data_url) 20)))).
Proof.
  refine (proj1 (sampler_resolves_exactly_when Examples.good_world
                   Examples.a_file 5 (number_of_nat 10) _) _);
    vm_compute; reflexivity.
Defined.

Lemma capture_stalls file step remaining :
  forall captured replies frames,
    forallb is_seeked replies = true ->
    (length replies < remaining)%nat ->
    outcome (capture file step remaining captured replies frames) = Pending.
Proof.
  induction remaining as [|remaining IH]; intros captured replies frames Hs Hl;
    [lia|].
  cbn [capture]. cbv zeta.
  destruct (is_finite (number_mul (number_of_nat captured) step));
    [|reflexivity].
  rewrite outcome_emit_bind.
  destruct replies as [|[dataURL|] replies];
    [reflexivity | | simpl in Hs; discriminate Hs].
  rewrite outcome_emit_bind. apply IH; [exact Hs | simpl in Hl; lia].
Qed.

(** When the video element stops firing events, the promise of the
    sampler never settles and the object URL is never revoked: this is so
    when nothing follows the assignment of [video.src], and when fewer than
    [maxFrames] seeks are answered. *)
Theorem sampler_never_settles_when_events_stop :
  forall (w : World) (file : File) (maxFrames : nat),
    video_load w file = LoadSilent
    \/ ((exists duration, video_load w file = LoadedMetadata duration)
        /\ forallb is_seeked (video_seek w file) = true
        /\ (length (video_seek w file) < maxFrames)%nat) ->
    outcome (extractFramesFromVideo w file maxFrames) = Pending
    /\ forall ev, In ev (trace (extractFramesFromVideo w file maxFrames)) ->
                  is_revoke ev = false.
Proof.
  intros w file n H.
  assert (Hp : outcome (extractFramesFromVideo w file n) = Pending).
  { unfold extractFramesFromVideo. rewrite outcome_emit_bind.
    destruct H as [-> | [[duration ->] [Hs Hl]]]; [reflexivity|].
    apply capture_stalls; assumption. }
  split; [exact Hp|].
  pose proof (sampler_revokes_only_on_success w file n) as Hr.
  rewrite Hp in Hr. exact Hr.
Qed.

Lemma sampler_never_settles_when_events_stop_witness :
  outcome (extractFramesFromVideo stalling_world Examples.a_file 20) = Pending
  /\ forall ev,
      In ev (trace (extractFramesFromVideo stalling_world Examples.a_file 20)) ->
      is_revoke ev = false.
Proof.
  apply (sampler_never_settles_when_events_stop stalling_world Examples.a_file 20).
  right. split; [eexists; reflexivity|].
  split; [reflexivity | vm_compute; lia].
Defined.

(* ================================================================== *)
(** ** The file pipeline from end to end *)

Lemma sampler_rejects_only_with_extraction_failure file step remaining :
  forall captured replies frames e,
    outcome (capture file step remaining captured replies frames) = Rejected e ->
    e = FrameExtractionFailed.
Proof.
  induction remaining as [|remaining IH]; intros captured replies frames e;
    cbn [capture].
  - rewrite outcome_emit_bind. discriminate.
  - cbv zeta.
    destruct (is_finite (number_mul (number_of_nat captured) step));
      [|discriminate].
    rewrite outcome_emit_bind.
    destruct replies as [|[dataURL|] replies]; try discriminate.
    + rewrite outcome_emit_bind. apply IH.
    + intro H. inversion H. reflexivity.
Qed.

Lemma capture_never_fetches file step remaining :
  forall captured replies frames ev,
    In ev (trace (capture file step remaining captured replies frames)) ->
    is_fetch ev = false.
Proof.
  induction remaining as [|remaining IH]; intros captured replies frames ev;
    cbn [capture].
  - rewrite trace_emit_bind. intros [<-|[]]. reflexivity.
  - cbv zeta.
    destruct (is_finite (number_mul (number_of_nat captured) step));
      [|intros []].
    rewrite trace_emit_bind.
    destruct replies as [|[dataURL|] replies].
    + intros [<-|[]]. reflexivity.
    + rewrite trace_emit_bind.
      intros [<-|[<-|Hin]]; try reflexivity.
      exact (IH _ _ _ _ Hin).
    + intros [<-|[]]. reflexivity.
Qed.

Lemma sampler_never_fetches w file maxFrames ev :
  In ev (trace (extractFramesFromVideo w file maxFrames)) -> is_fetch ev = false.
Proof.
  unfold extractFramesFromVideo. rewrite trace_emit_bind.
  destruct (video_load w file) as [duration| |].
  - intros [<-|Hin]; [reflexivity|].
    exact (capture_never_fetches _ _ _ _ _ _ _ Hin).
  - intros [<-|[]]. reflexivity.
  - intros [<-|[]]. reflexivity.
Qed.

(** A document returned by the file pipeline carries the name of the file
    as its [videoTitle] and an [undefined] [videoUrl]; every other property
    is as the model wrote it.  It was produced by one generation call, made
    after the sampler had resolved and released the object URL, whose
    request carries the twenty sampled frames and no search grounding. *)
Theorem file_document_provenance :
  forall (P : Platform) (w : World) (file : File) (t : list Event) (doc : value),
    getAnalysisFromFile P w file = (t, Resolved doc) ->
    get doc k_videoTitle = JString (name file)
    /\ get doc k_videoUrl = JUndefined
    /\ exists t0 frames key response,
        extractFramesFromVideo w file 20 = (t0 ++ [EvRevokeObjectURL file],
                                            Resolved frames)
        /\ length frames = 20%nat
        /\ getApiKey w = Some key
        /\ generateContent w key (framesRequest frames) = GenResolved response
        /\ googleSearch (framesRequest frames) = false
        /\ t = t0 ++ [EvRevokeObjectURL file; EvGenerate (framesRequest frames)]
        /\ forall k, k <> k_videoTitle -> k <> k_videoUrl ->
                     get doc k = get (parseJsonResponse P (text response)) k.
Proof.
  intros P w file t doc H. unfold getAnalysisFromFile in H.
  apply bind_resolved in H as (t1 & frames & t2 & Hs & H & ->).
  apply bind_resolved in H as (t3 & key & t4 & Hc & H & ->).
  apply getClient_resolved_inv in Hc as (Hkey & _ & ->).
  apply bind_resolved in H as (t5 & response & t6 & Hg & H & ->).
  apply models_generateContent_resolved_inv in Hg as [Hg ->].
  destruct (negb (truthy (parseJsonResponse P (text response))));
    try discriminate H.
  apply bind_resolved in H as (t7 & titled & t8 & Ht & H & ->).
  apply assign_prop_resolved in Ht as [Ht ->].
  apply bind_resolved in H as (t9 & final & t10 & Hu & H & ->).
  apply assign_prop_resolved in Hu as [Hu ->].
  unfold ret in H. inversion H; subst.
  split; [|split].
  - rewrite (get_set_other _ _ _ _ _ Hu) by (vm_compute; discriminate).
    exact (get_set_same _ _ _ _ Ht).
  - exact (get_set_same _ _ _ _ Hu).
  - pose proof (sampler_revokes_only_on_success w file 20) as Hr.
    rewrite Hs in Hr. cbn [outcome trace fst snd] in Hr.
    destruct Hr as (t0 & -> & _ & Hlen).
    exists t0, frames, key, response.
    repeat split; try assumption.
    + simpl. rewrite <- app_assoc. reflexivity.
    + intros k Hk1 Hk2.
      rewrite (get_set_other _ _ _ _ _ Hu) by exact Hk2.
      exact (get_set_other _ _ _ _ _ Ht Hk1).
Qed.

Lemma file_document_provenance_witness :
  get declined_document k_videoTitle = JString (name Examples.a_file)
  /\ get declined_document k_videoUrl = JUndefined.
Proof.
  destruct (file_document_provenance Reference.platform Examples.declining_world
              Examples.a_file
              (trace (getAnalysisFromFile Reference.platform
                        Examples.declining_world Examples.a_file))
              declined_document)
    as (H1 & H2 & _).
  - vm_compute; reflexivity.
  - split; [exact H1 | exact H2].
Defined.

(** The file pipeline asks the metadata endpoint nothing.  When the sampler
    does not resolve, the pipeline stops with it: a rejection is always the
    frame extraction failure, a promise that never settles leaves the
    pipeline pending, and in both cases there is no generation call. *)
Theorem file_pipeline_stops_with_the_sampler :
  forall (P : Platform) (w : World) (file : File),
    (forall ev, In ev (trace (getAnalysisFromFile P w file)) ->
                is_fetch ev = false)
    /\ (forall e,
           outcome (extractFramesFromVideo w file 20) = Rejected e ->
           getAnalysisFromFile P w file
           = (trace (extractFramesFromVideo w file 20),
              Rejected FrameExtractionFailed))
    /\ (outcome (extractFramesFromVideo w file 20) = Pending ->
        getAnalysisFromFile P w file
        = (trace (extractFramesFromVideo w file 20), Pending))
    /\ ((forall frames,
            outcome (extractFramesFromVideo w file 20) <> Resolved frames) ->
        forall ev, In ev (trace (getAnalysisFromFile P w file)) ->
                   is_generate ev = false).
Proof.
  intros P w file. unfold getAnalysisFromFile.
  pose proof (sampler_never_fetches w file 20) as Hnf.
  pose proof (extractFramesFromVideo_never_generates w file 20) as Hng.
  assert (Hrej : forall e,
             outcome (extractFramesFromVideo w file 20) = Rejected e ->
             e = FrameExtractionFailed).
  { intro e. unfold extractFramesFromVideo. rewrite outcome_emit_bind.
    destruct (video_load w file) as [duration| |]; try discriminate.
    - apply sampler_rejects_only_with_extraction_failure.
    - intro H. inversion H. reflexivity. }
  destruct (extractFramesFromVideo w file 20) as [t [frames|e|]] eqn:Es;
    cbn [trace outcome fst snd] in *.
  - split; [|split; [discriminate | split; [discriminate|]]].
    + rewrite trace_bind_cases. cbn [trace outcome fst snd].
      intros ev Hin. apply in_app_or in Hin as [Hin|Hin]; [exact (Hnf ev Hin)|].
      rewrite trace_bind_cases, getClient_is_silent in Hin. cbn [app] in Hin.
      destruct (outcome (getClient w)) as [key| |]; try contradiction.
      rewrite trace_bind_cases, models_generateContent_trace in Hin.
      apply in_app_or in Hin as [[<-|[]]|Hin]; [reflexivity|].
      destruct (outcome (models_generateContent w key (framesRequest frames)))
        as [response| |]; try contradiction.
      replace (trace _) with (@nil Event) in Hin; [contradiction|].
      symmetry. silent_guards.
    + intro H. exfalso. exact (H frames eq_refl).
  - split; [exact Hnf|]. split; [|split; [discriminate|]].
    + intros e' He'. rewrite (Hrej e eq_refl). reflexivity.
    + intros _. exact Hng.
  - split; [exact Hnf|]. split; [discriminate|]. split; [reflexivity|].
    intros _. exact Hng.
Qed.

Lemma file_pipeline_stops_with_the_sampler_witness :
  getAnalysisFromFile Reference.platform Examples.broken_video_world
    Examples.a_file
  = (trace (extractFramesFromVideo Examples.broken_video_world
              Examples.a_file 20),
     Rejected FrameExtractionFailed).
Proof.
  refine (proj1 (proj2 (file_pipeline_stops_with_the_sampler Reference.platform
                          Examples.broken_video_world Examples.a_file))
                FrameExtractionFailed _).
  vm_compute; reflexivity.
Defined.

(* ================================================================== *)
(** ** The mode of a link request *)

Lemma outcome_bind_same_start A B (m : M A) (k1 k2 : A -> M B) :
  (forall a, outcome (k1 a) = outcome (k2 a)) ->
  outcome (bind m k1) = outcome (bind m k2).
Proof.
  intro H. destruct m as [t [a| |]]; unfold bind, outcome; simpl;
    try reflexivity.
  specialize (H a). unfold outcome in H.
  destruct (k1 a), (k2 a). exact H.
Qed.

Lemma outcome_bind_same_rest A B (m1 m2 : M A) (k : A -> M B) :
  outcome m1 = outcome m2 -> outcome (bind m1 k) = outcome (bind m2 k).
Proof.
  destruct m1 as [t1 o1], m2 as [t2 o2]. unfold outcome. simpl. intros ->.
  destruct o2 as [a| |]; unfold bind; try reflexivity.
  destruct (k a); reflexivity.
Qed.

(** The mode of a link request reaches the prompt and nothing else: when
    the model gives the same answer to the detailed and to the quick
    prompt, the two modes end in the same way, guard for guard. *)
Theorem mode_only_changes_the_prompt :
  forall (P : Platform) (w : World) (url : jsstring),
    (forall key id oembed,
        generateContent w key (analysisRequest url id oembed true)
        = generateContent w key (analysisRequest url id oembed false)) ->
    outcome (getAnalysisFromWeb P w url video_mode)
    = outcome (getAnalysisFromWeb P w url web_mode).
Proof.
  intros P w url H. unfold getAnalysisFromWeb.
  destruct (extractYouTubeId P url) as [[|c id]|]; try reflexivity.
  apply outcome_bind_same_start. intro oembed.
  destruct (negb (truthy (get_opt oembed k_title))); [reflexivity|].
  apply outcome_bind_same_start. intros [].
  apply outcome_bind_same_start. intro client.
  apply outcome_bind_same_rest.
  unfold models_generateContent. rewrite !outcome_emit_bind.
  cbn [isDetailed]. rewrite H. reflexivity.
Qed.

Lemma mode_only_changes_the_prompt_witness :
  outcome (getAnalysisFromWeb Reference.platform Examples.good_world
             Examples.url_watch video_mode)
  = outcome (getAnalysisFromWeb Reference.platform Examples.good_world
               Examples.url_watch web_mode).
Proof.
  apply (mode_only_changes_the_prompt Reference.platform Examples.good_world
           Examples.url_watch).
  intros key id oembed. reflexivity.
Defined.
